(** * qubits: a shallow embedding of the sparse simulator, the compiler passes
    and the operation recorder, with the properties of their specification.

    JavaScript numbers are IEEE-754 binary64 values and are modelled by the
    kernel's primitive floats, whose operations are the correctly rounded
    ones of the standard.  BigInt basis indices are [Z]; a store into a
    [BigUint64Array] keeps the value modulo 2^64.  [Math.cos] and [Math.sin]
    are the platform's and are section variables; [Math.random] is a stream
    of draws threaded through the simulator state.  Qubit handles (JS
    symbols, compared by identity) are natural numbers. *)

From Stdlib Require Import ZArith List String Bool Floats Lia.
Import ListNotations.

#[local] Set Warnings "-inexact-float -register-all".

Local Open Scope string_scope.
Local Open Scope Z_scope.

(** ** JavaScript number helpers *)
Module JS.

(** [x % y] on numbers (C's [fmod]): the exact remainder, with the sign of
    [x]; computed on the exact binary values [m * 2^e]. *)
Definition fmod (x y : float) : float :=
  match Prim2SF x, Prim2SF y with
  | S754_nan, _ | _, S754_nan => nan
  | S754_infinity _, _ => nan
  | _, S754_zero _ => nan
  | S754_zero _, _ => x
  | S754_finite _ _ _, S754_infinity _ => x
  | S754_finite sx mx ex, S754_finite _ my ey =>
      let e := Z.min ex ey in
      let X := Z.pos mx * 2 ^ (ex - e) in
      let Y := Z.pos my * 2 ^ (ey - e) in
      let R := Z.modulo X Y in
      SF2Prim (binary_normalize FloatOps.prec FloatOps.emax
                 (if sx then - R else R) e sx)
  end.

(** [ToBoolean] of a number: false exactly for +0, -0 and NaN. *)
Definition truthy (x : float) : bool :=
  negb (PrimFloat.eqb x 0%float) && PrimFloat.eqb x x.

(** [Math.max(a, b)] on non-NaN numbers. *)
Definition max (a b : float) : float :=
  if PrimFloat.ltb a b then b else a.

(** An integer-valued JS number (counts and positions below 2^53). *)
Definition of_Z (n : Z) : float := PrimFloat.of_uint63 (Uint63.of_Z n).

Definition PI : float := 3.141592653589793%float.

(** [Math.random() < p] reads the next draw. *)
Definition lt := PrimFloat.ltb.

End JS.

(** ** Intermediate representation (ir-generator.js) *)

Definition handle := nat.

(** [op.qubit]: a single handle, an array of handles, or [null]. *)
Inductive qref :=
  | QOne (h : handle)
  | QMany (hs : list handle)
  | QNull.

(** An IR node [{gate, qubit, params, condition, body}] (the timestamp is
    never read).  A [params] field that is absent behaves as [[]]. *)
Inductive instr := mkInstr {
  gate : string;
  qubit : qref;
  params : list float;
  condition : option (handle * Z);
  body : option (list instr)
}.

(** [circuit.addOp(gate, qubit, options)]. *)
Definition addOp (ops : list instr) (g : string) (q : qref) (ps : list float)
    (c : option (handle * Z)) (b : option (list instr)) : list instr :=
  (ops ++ [mkInstr g q ps c b])%list.

Definition op1 (g : string) (q : handle) : instr := mkInstr g (QOne q) [] None None.
Definition op1p (g : string) (q : handle) (ps : list float) : instr :=
  mkInstr g (QOne q) ps None None.
Definition opn (g : string) (qs : list handle) : instr := mkInstr g (QMany qs) [] None None.

Definition set_gate (g : string) (i : instr) : instr :=
  mkInstr g (qubit i) (params i) (condition i) (body i).
Definition set_params (ps : list float) (i : instr) : instr :=
  mkInstr (gate i) (qubit i) ps (condition i) (body i).

(** [params[k]]: a missing entry is [undefined], which every arithmetic use
    turns into NaN. *)
Definition param (k : nat) (ps : list float) : float := nth k ps nan.

(** [params[0] = v]: an empty array grows to [[v]]. *)
Definition set_param0 (v : float) (ps : list float) : list float :=
  match ps with [] => [v] | _ :: t => v :: t end.

(** [Array.isArray(op.qubit) ? op.qubit : [op.qubit]], [null] as [None]. *)
Definition qubits_of (q : qref) : list (option handle) :=
  match q with
  | QOne h => [Some h]
  | QMany hs => map Some hs
  | QNull => [None]
  end.

Definition oh_eqb (a b : option handle) : bool :=
  match a, b with
  | Some x, Some y => Nat.eqb x y
  | None, None => true
  | _, _ => false
  end.

Definition mem_oh (a : option handle) (l : list (option handle)) : bool :=
  existsb (oh_eqb a) l.

Definition mem_str (s : string) (l : list string) : bool :=
  existsb (String.eqb s) l.

(** ** Optimizer (optimizer.js) *)
Module Optimizer.

Inductive role := Control | Target.

Record rule := { r_gate : string; r_commutesWith : list string; r_role : role }.

Definition COMMUTATION_RULES : list rule := [
  {| r_gate := "Z"; r_commutesWith := ["CNOT"; "CZ"]; r_role := Control |};
  {| r_gate := "S"; r_commutesWith := ["CNOT"; "CZ"; "T"; "RZ"]; r_role := Control |};
  {| r_gate := "T"; r_commutesWith := ["CNOT"; "CZ"; "S"; "RZ"]; r_role := Control |};
  {| r_gate := "RZ"; r_commutesWith := ["CNOT"; "CZ"; "S"; "T"]; r_role := Control |};
  {| r_gate := "X"; r_commutesWith := ["CNOT"]; r_role := Target |};
  {| r_gate := "RX"; r_commutesWith := ["CNOT"]; r_role := Target |}
].

Definition EPSILON : float := 1e-10%float.

Definition TWO_PI : float := (2 * JS.PI)%float.

Definition rotations : list string := ["RX"; "RY"; "RZ"].

Definition isIdentity (op : instr) : bool :=
  match params op with
  | [] => false
  | p0 :: _ =>
      if mem_str (gate op) rotations then
        let angle := PrimFloat.abs (JS.fmod p0 TWO_PI) in
        PrimFloat.ltb angle EPSILON
        || PrimFloat.ltb (PrimFloat.abs (angle - TWO_PI)%float) EPSILON
      else if String.eqb (gate op) "U3" then
        forallb (fun p => PrimFloat.ltb (PrimFloat.abs (JS.fmod p TWO_PI)) EPSILON)
                (params op)
      else false
  end.

(** [q1 === q2], or two arrays equal element by element. *)
Definition areQubitsEqual (q1 q2 : qref) : bool :=
  match q1, q2 with
  | QOne a, QOne b => Nat.eqb a b
  | QNull, QNull => true
  | QMany a, QMany b => (List.length a =? List.length b)%nat && forallb (fun p => Nat.eqb (fst p) (snd p)) (combine a b)
  | _, _ => false
  end.

Definition rule_matches (a b : instr) (r : rule) : bool :=
  (String.eqb (r_gate r) (gate a) && mem_str (gate b) (r_commutesWith r))
  || (String.eqb (r_gate r) (gate b) && mem_str (gate a) (r_commutesWith r)).

(** [multiQubitGate.qubit[0] === sharedQubit]: indexing a symbol gives
    [undefined], which equals no handle.  (A [null] qubit never carries one
    of the rule's gates.) *)
Definition first_is (q : qref) (s : option handle) : bool :=
  match q with
  | QMany (h :: _) => oh_eqb (Some h) s
  | _ => false
  end.

Definition canCommute (a b : instr) : bool :=
  let qA := qubits_of (qubit a) in
  let qB := qubits_of (qubit b) in
  let shared := filter (fun q => mem_oh q qB) qA in
  match shared with
  | [] => true
  | sharedQubit :: _ =>
      match find (rule_matches a b) COMMUTATION_RULES with
      | Some r =>
          let multiQubitGate := match qubit a with QMany _ => a | _ => b end in
          let isControl := first_is (qubit multiQubitGate) sharedQubit in
          match r_role r with
          | Control => isControl
          | Target => negb isControl
          end
      | None => false
      end
  end.

(** [wireMap]: qubit ([null] included) to the trail of slot indices. *)
Definition wiremap := list (option handle * list nat).

Fixpoint wm_get (q : option handle) (m : wiremap) : option (list nat) :=
  match m with
  | [] => None
  | (k, v) :: t => if oh_eqb k q then Some v else wm_get q t
  end.

Fixpoint wm_set (q : option handle) (v : list nat) (m : wiremap) : wiremap :=
  match m with
  | [] => [(q, v)]
  | (k, w) :: t => if oh_eqb k q then (k, v) :: t else (k, w) :: wm_set q v t
  end.

Fixpoint set_nth {A} (n : nat) (v : A) (l : list A) : list A :=
  match l, n with
  | [], _ => []
  | _ :: t, O => v :: t
  | x :: t, S n' => x :: set_nth n' v t
  end.

(** The backward walk over a wire, most recent first. *)
Fixpoint walk (op : instr) (optimized : list (option instr)) (trail : list nat)
    : option nat :=
  match trail with
  | [] => None
  | checkIdx :: rest =>
      match nth checkIdx optimized None with
      | None => walk op optimized rest
      | Some candidate =>
          if String.eqb (gate candidate) (gate op)
             && areQubitsEqual (qubit candidate) (qubit op)
          then Some checkIdx
          else if negb (canCommute op candidate) then None
          else walk op optimized rest
      end
  end.

Definition findCommutingPartner (op : instr) (wm : wiremap)
    (optimized : list (option instr)) : option nat :=
  match qubits_of (qubit op) with
  | [q] =>
      let wire := match wm_get q wm with Some w => w | None => [] end in
      walk op optimized (rev wire)
  | _ => None
  end.

(** [wire.indexOf(idx)] then [splice(entryIdx, 1)]: drop the first
    occurrence.  Every slot's qubits were registered when it was pushed,
    so the wire is present. *)
Fixpoint remove_first (x : nat) (l : list nat) : list nat :=
  match l with
  | [] => []
  | y :: t => if Nat.eqb x y then t else y :: remove_first x t
  end.

Definition removeFromWires (idx : nat) (op : instr) (wm : wiremap) : wiremap :=
  fold_left (fun m q =>
               match wm_get q m with
               | Some w => wm_set q (remove_first idx w) m
               | None => m
               end) (qubits_of (qubit op)) wm.

Definition mergeGates (partnerIdx : nat) (op : instr)
    (optimized : list (option instr)) (wm : wiremap)
    : list (option instr) * wiremap :=
  match nth partnerIdx optimized None with
  | None => (optimized, wm)
  | Some partner =>
      let partner' :=
        if mem_str (gate op) rotations
        then set_params
               (set_param0 (JS.fmod (param 0 (params partner) + param 0 (params op))%float
                                    TWO_PI) (params partner)) partner
        else partner in
      let optimized := set_nth partnerIdx (Some partner') optimized in
      if isIdentity partner'
      then (set_nth partnerIdx None optimized, removeFromWires partnerIdx partner' wm)
      else (optimized, wm)
  end.

Definition selfInverses : list string := ["H"; "X"; "Y"; "Z"; "CNOT"; "CZ"; "SWAP"].

Definition push (op : instr) (optimized : list (option instr)) (wm : wiremap)
    : list (option instr) * wiremap :=
  let newIdx := List.length optimized in
  ((optimized ++ [Some op])%list,
   fold_left (fun m q =>
                let w := match wm_get q m with Some w => w | None => [] end in
                wm_set q (w ++ [newIdx])%list m) (qubits_of (qubit op)) wm).

Definition step (acc : list (option instr) * wiremap) (op : instr)
    : list (option instr) * wiremap :=
  let (optimized, wm) := acc in
  if isIdentity op then acc else
  match findCommutingPartner op wm optimized with
  | Some partnerIdx =>
      match nth partnerIdx optimized None with
      | Some partner =>
          if mem_str (gate op) rotations then mergeGates partnerIdx op optimized wm
          else if String.eqb (gate op) "S" && String.eqb (gate partner) "S"
          then (set_nth partnerIdx (Some (set_gate "Z" partner)) optimized, wm)
          else if String.eqb (gate op) "T" && String.eqb (gate partner) "T"
          then (set_nth partnerIdx (Some (set_gate "S" partner)) optimized, wm)
          else if String.eqb (gate op) (gate partner) && mem_str (gate op) selfInverses
          then (set_nth partnerIdx None optimized, removeFromWires partnerIdx partner wm)
          else push op optimized wm
      | None => push op optimized wm
      end
  | None => push op optimized wm
  end.

Fixpoint keep (l : list (option instr)) : list instr :=
  match l with
  | [] => []
  | Some op :: t => if isIdentity op then keep t else op :: keep t
  | None :: t => keep t
  end.

Definition prune (instructions : list instr) : list instr :=
  keep (fst (fold_left step instructions ([], []))).

End Optimizer.

(** ** Transpiler (transpiler.js) *)
Module Transpiler.

Definition u3 (q : qref) (ps : list float) : instr := mkInstr "U3" q ps None None.
Definition cnot (a b : handle) : instr := mkInstr "CNOT" (QMany [a; b]) [] None None.

(** [#decompose(op)].  Destructuring [const [q1, q2] = qubit] throws on a
    symbol or [null] ([None]); an array shorter than two would carry
    [undefined] handles, which the model does not represent ([None]). *)
Definition decompose (op : instr) : option (list instr) :=
  let q := qubit op in
  let ps := params op in
  let g := gate op in
  if String.eqb g "H" then Some [u3 q [(JS.PI / 2)%float; 0%float; JS.PI]]
  else if String.eqb g "X" then Some [u3 q [JS.PI; 0%float; JS.PI]]
  else if String.eqb g "Y" then Some [u3 q [JS.PI; (JS.PI / 2)%float; (JS.PI / 2)%float]]
  else if String.eqb g "Z" then Some [u3 q [0%float; 0%float; JS.PI]]
  else if String.eqb g "RX" then
    Some [u3 q [param 0 ps; (- JS.PI / 2)%float; (JS.PI / 2)%float]]
  else if String.eqb g "RY" then Some [u3 q [param 0 ps; 0%float; 0%float]]
  else if String.eqb g "RZ" then Some [u3 q [0%float; 0%float; param 0 ps]]
  else if String.eqb g "SWAP" then
    match q with
    | QMany (q1 :: q2 :: _) => Some [cnot q1 q2; cnot q2 q1; cnot q1 q2]
    | _ => None
    end
  else if String.eqb g "CZ" then
    match q with
    | QMany (ctrl :: trgt :: _) =>
        Some [u3 (QOne trgt) [(JS.PI / 2)%float; 0%float; JS.PI];
              cnot ctrl trgt;
              u3 (QOne trgt) [(JS.PI / 2)%float; 0%float; JS.PI]]
    | _ => None
    end
  else Some [op].

Fixpoint transpile (instructions : list instr) : option (list instr) :=
  match instructions with
  | [] => Some []
  | op :: rest =>
      match decompose op, transpile rest with
      | Some d, Some r => Some (d ++ r)%list
      | _, _ => None
      end
  end.

End Transpiler.

(** ** Compiler (compiler.js): [prune(transpile(prune(ir)))]. *)
Module Compiler.

Definition compile (instructions : list instr) : option (list instr) :=
  match Transpiler.transpile (Optimizer.prune instructions) with
  | Some t => Some (Optimizer.prune t)
  | None => None
  end.

End Compiler.

(** ** Gate matrix catalog and sparse simulator (gate-defs.js, simulator.js) *)
Section Sim.

(** The platform's [Math.cos] and [Math.sin]. *)
Variables Math_cos Math_sin : float -> float.

Local Open Scope float_scope.

Definition INV_SQRT2 : float := 1 / PrimFloat.sqrt 2.

Definition CNOT_M : list float :=
  [1; 0; 0; 0; 0; 0; 0; 0;
   0; 0; 1; 0; 0; 0; 0; 0;
   0; 0; 0; 0; 0; 0; 1; 0;
   0; 0; 0; 0; 1; 0; 0; 0].

Definition CZ_M : list float :=
  [1; 0; 0; 0; 0; 0; 0; 0;
   0; 0; 1; 0; 0; 0; 0; 0;
   0; 0; 0; 0; 1; 0; 0; 0;
   0; 0; 0; 0; 0; 0; -1; 0].

Definition SWAP_M : list float :=
  [1; 0; 0; 0; 0; 0; 0; 0;
   0; 0; 0; 0; 1; 0; 0; 0;
   0; 0; 1; 0; 0; 0; 0; 0;
   0; 0; 0; 0; 0; 0; 1; 0].

Definition CCX_M : list float :=
  [1;0;0;0;0;0;0;0;0;0;0;0;0;0;0;0;
   0;0;1;0;0;0;0;0;0;0;0;0;0;0;0;0;
   0;0;0;0;1;0;0;0;0;0;0;0;0;0;0;0;
   0;0;0;0;0;0;1;0;0;0;0;0;0;0;0;0;
   0;0;0;0;0;0;0;0;1;0;0;0;0;0;0;0;
   0;0;0;0;0;0;0;0;0;0;1;0;0;0;0;0;
   0;0;0;0;0;0;0;0;0;0;0;0;0;0;1;0;
   0;0;0;0;0;0;0;0;0;0;0;0;1;0;0;0].

(** [GATES[name]], applied to [...params] when it is a function; [None]
    for a name the catalog lacks ([undefined]). *)
Definition GATES (name : string) (ps : list float) : option (list float) :=
  let th := param 0 ps in
  if String.eqb name "H" then
    Some [INV_SQRT2; 0; INV_SQRT2; 0; INV_SQRT2; 0; - INV_SQRT2; 0]
  else if String.eqb name "X" then Some [0; 0; 1; 0; 1; 0; 0; 0]
  else if String.eqb name "Y" then Some [0; 0; 0; -1; 0; 1; 0; 0]
  else if String.eqb name "Z" then Some [1; 0; 0; 0; 0; 0; -1; 0]
  else if String.eqb name "RX" then
    let c := Math_cos (th / 2) in let s := - Math_sin (th / 2) in
    Some [c; 0; 0; s; 0; s; c; 0]
  else if String.eqb name "RY" then
    let c := Math_cos (th / 2) in let s := Math_sin (th / 2) in
    Some [c; 0; - s; 0; s; 0; c; 0]
  else if String.eqb name "RZ" then
    let c := Math_cos (th / 2) in let s := Math_sin (th / 2) in
    Some [c; - s; 0; 0; 0; 0; c; s]
  else if String.eqb name "U3" then
    let phi := param 1 ps in let lam := param 2 ps in
    let c := Math_cos (th / 2) in let s := Math_sin (th / 2) in
    Some [c; 0;
          - s * Math_cos lam; - s * Math_sin lam;
          s * Math_cos phi; s * Math_sin phi;
          c * Math_cos (phi + lam); c * Math_sin (phi + lam)]
  else if String.eqb name "CNOT" then Some CNOT_M
  else if String.eqb name "CZ" then Some CZ_M
  else if String.eqb name "SWAP" then Some SWAP_M
  else if String.eqb name "S" then Some [1; 0; 0; 0; 0; 0; 0; 1]
  else if String.eqb name "T" then
    Some [1; 0; 0; 0; 0; 0; Math_cos (JS.PI / 4); Math_sin (JS.PI / 4)]
  else if String.eqb name "RZZ" then
    let c := Math_cos (th / 2) in let s := Math_sin (th / 2) in
    Some [c; - s; 0; 0; 0; 0; 0; 0;
          0; 0; c; s; 0; 0; 0; 0;
          0; 0; 0; 0; c; s; 0; 0;
          0; 0; 0; 0; 0; 0; c; - s]
  else if String.eqb name "CCX" then Some CCX_M
  else None.

Local Close Scope float_scope.

Record noiseModel := mkNoise {
  gateError : float; readoutError : float; t1 : float; t2 : float
}.

(** The simulator's fields.  A typed array is a function on positions with
    its length; the amplitude arrays have length [2 * s_len].  [s_rng] is
    the sequence of [Math.random()] draws and [s_draws] how many were
    taken. *)
Record sim := mkSim {
  s_indices : Z -> Z;
  s_amplitudes : Z -> float;
  s_indicesAux : Z -> Z;
  s_amplitudesAux : Z -> float;
  s_len : Z;
  s_activeCount : Z;
  s_qubits : list handle;
  s_noise : option noiseModel;
  s_epsilon : option float;
  s_results : handle -> option Z;
  s_rng : nat -> float;
  s_draws : nat
}.

Definition memoryBudget : Z := 5000.

Definition with_buffers (st : sim) (ix : Z -> Z) (am : Z -> float)
    (ixA : Z -> Z) (amA : Z -> float) (len : Z) : sim :=
  mkSim ix am ixA amA len (s_activeCount st) (s_qubits st) (s_noise st)
        (s_epsilon st) (s_results st) (s_rng st) (s_draws st).

Definition with_primary (st : sim) (ix : Z -> Z) (am : Z -> float) (n : Z) : sim :=
  mkSim ix am (s_indicesAux st) (s_amplitudesAux st) (s_len st) n (s_qubits st)
        (s_noise st) (s_epsilon st) (s_results st) (s_rng st) (s_draws st).

Definition with_results (st : sim) (r : handle -> option Z) : sim :=
  mkSim (s_indices st) (s_amplitudes st) (s_indicesAux st) (s_amplitudesAux st)
        (s_len st) (s_activeCount st) (s_qubits st) (s_noise st)
        (s_epsilon st) r (s_rng st) (s_draws st).

Definition with_draws (st : sim) (d : nat) : sim :=
  mkSim (s_indices st) (s_amplitudes st) (s_indicesAux st) (s_amplitudesAux st)
        (s_len st) (s_activeCount st) (s_qubits st) (s_noise st)
        (s_epsilon st) (s_results st) (s_rng st) d.

(** Typed-array store: positions outside the array are ignored. *)
Definition arr_set {A} (len : Z) (a : Z -> A) (i : Z) (v : A) : Z -> A :=
  if (0 <=? i) && (i <? len) then fun j => if Z.eqb j i then v else a j else a.

(** A [BigUint64Array] store keeps the value modulo 2^64. *)
Definition idx_set (len : Z) (a : Z -> Z) (i v : Z) : Z -> Z :=
  arr_set len a i (Z.modulo v (2 ^ 64)).

Definition zseq (n : Z) : list Z := map Z.of_nat (seq 0 (Z.to_nat n)).

(** [this.#qubitMap.get(q)] for [new Map(qubits.map((q, i) => [q, i]))]:
    the last position of [q]. *)
Fixpoint map_get (qs : list handle) (q : handle) (i : Z) (acc : option Z) : option Z :=
  match qs with
  | [] => acc
  | x :: t => map_get t q (i + 1) (if Nat.eqb x q then Some i else acc)
  end.

(** [1n << BigInt(this.#qubitMap.get(q))]; [BigInt(undefined)] throws. *)
Definition bitOf (st : sim) (q : option handle) : option Z :=
  match q with
  | Some h =>
      match map_get (s_qubits st) h 0 None with
      | Some p => Some (Z.shiftl 1 p)
      | None => None
      end
  | None => None
  end.

Definition testb (idx bit : Z) : bool := negb (Z.eqb (Z.land idx bit) 0).

(** A small state and error monad; [None] is a thrown error. *)
Definition M (A : Type) := sim -> option (A * sim).
Definition ret {A} (a : A) : M A := fun st => Some (a, st).
Definition bind {A B} (m : M A) (f : A -> M B) : M B :=
  fun st => match m st with Some (a, st') => f a st' | None => None end.
Definition throw {A} : M A := fun _ => None.
Definition get : M sim := fun st => Some (st, st).
Definition put (st : sim) : M unit := fun _ => Some (tt, st).

Local Notation "x <- m ;; k" := (bind m (fun x => k))
  (at level 61, m at next level, right associativity).
Local Notation "m ;;; k" := (bind m (fun _ => k))
  (at level 61, right associativity).

Definition liftO {A} (o : option A) : M A :=
  fun st => match o with Some a => Some (a, st) | None => None end.

(** [Math.random()]. *)
Definition random : M float :=
  fun st => Some (s_rng st (s_draws st), with_draws st (S (s_draws st))).

Definition sq (x : float) : float := (x * x)%float.

(** [amplitudes[i * 2]] and [amplitudes[i * 2 + 1]]. *)
Definition re_at (am : Z -> float) (i : Z) : float := am (i * 2).
Definition im_at (am : Z -> float) (i : Z) : float := am (i * 2 + 1).

(** [#ensureCapacity(required)]. *)
Definition ensureCapacity (required : Z) (st : sim) : sim :=
  let len := s_len st in
  if len <? required then
    let newSize := Z.max (len * 2) required in
    let ix := s_indices st in let am := s_amplitudes st in
    with_buffers st (fun j => if j <? len then ix j else 0)
                    (fun j => if j <? 2 * len then am j else 0%float)
                    (fun _ => 0) (fun _ => 0%float) newSize
  else st.

(** [#swapBuffers()]. *)
Definition swapBuffers (st : sim) : sim :=
  with_buffers st (s_indicesAux st) (s_amplitudesAux st)
                  (s_indices st) (s_amplitudes st) (s_len st).

Definition pruneThreshold (count : Z) : float :=
  (1e-15 * JS.max 1 (JS.of_Z count / JS.of_Z memoryBudget))%float.

(** [#getEffectiveEpsilon()]. *)
Definition getEffectiveEpsilon (st : sim) : float :=
  match s_epsilon st with
  | Some e => e
  | None => (pruneThreshold (s_activeCount st) * 100)%float
  end.

(** [#prune()]: in-place compaction of the entries at or above the
    threshold. *)
Definition prune_state (st : sim) : sim :=
  let n := s_activeCount st in
  let threshold := pruneThreshold n in
  let len := s_len st in
  let '(ix, am, w) :=
    fold_left (fun '(ix, am, w) i =>
      let re := am (i * 2) in let im := am (i * 2 + 1) in
      let magnitude := (sq re + sq im)%float in
      if PrimFloat.leb threshold magnitude then
        let '(ix, am) :=
          if negb (Z.eqb w i) then
            (idx_set len ix w (ix i),
             arr_set (2 * len) (arr_set (2 * len) am (w * 2) re) (w * 2 + 1) im)
          else (ix, am) in
        (ix, am, w + 1)
      else (ix, am, w)) (zseq n) (s_indices st, s_amplitudes st, 0) in
  with_primary st ix am w.

Definition prune : M unit := fun st => Some (tt, prune_state st).

(** [#getProb1(q)]. *)
Definition getProb1 (q : option handle) : M float :=
  fun st =>
    match bitOf st q with
    | None => None
    | Some target =>
        Some (fold_left (fun p i =>
                if testb (s_indices st i) target
                then (p + (sq (re_at (s_amplitudes st) i) + sq (im_at (s_amplitudes st) i)))%float
                else p) (zseq (s_activeCount st)) 0%float, st)
    end.

(** [#collapse(q, result, prob1)]. *)
Definition collapse (q : option handle) (result : Z) (prob1 : float) : M unit :=
  fun st =>
    match bitOf st q with
    | None => None
    | Some target =>
        let norm := if Z.eqb result 1 then PrimFloat.sqrt prob1
                    else PrimFloat.sqrt (1 - prob1)%float in
        let len := s_len st in
        let '(ix, am, w) :=
          fold_left (fun '(ix, am, w) i =>
            let isBitSet := testb (ix i) target in
            if (Z.eqb result 1 && isBitSet) || (Z.eqb result 0 && negb isBitSet) then
              let ix' := idx_set len ix w (ix i) in
              let am' := arr_set (2 * len) am (w * 2) (re_at am i / norm)%float in
              let am'' := arr_set (2 * len) am' (w * 2 + 1) (im_at am' i / norm)%float in
              (ix', am'', w + 1)
            else (ix, am, w)) (zseq (s_activeCount st))
            (s_indices st, s_amplitudes st, 0) in
        Some (tt, with_primary st ix am w)
    end.

(** [#normalize()]. *)
Definition normalize_state (st : sim) : sim :=
  let n := s_activeCount st in
  let am := s_amplitudes st in
  let normSq := fold_left (fun s i => (s + (sq (re_at am i) + sq (im_at am i)))%float)
                          (zseq n) 0%float in
  let norm := PrimFloat.sqrt normSq in
  let len2 := 2 * s_len st in
  let am' := fold_left (fun am i =>
               let am := arr_set len2 am (i * 2) (re_at am i / norm)%float in
               arr_set len2 am (i * 2 + 1) (im_at am i / norm)%float) (zseq n) am in
  with_primary st (s_indices st) am' n.

(** [this.#indices[i] ^= bit] over the active entries. *)
Definition xor_all (bit : Z) (st : sim) : sim :=
  let len := s_len st in
  with_primary st
    (fold_left (fun ix i => idx_set len ix i (Z.lxor (ix i) bit))
               (zseq (s_activeCount st)) (s_indices st))
    (s_amplitudes st) (s_activeCount st).

(** Multiply both components of every entry whose [bit] is set. *)
Definition scale_set (bit : Z) (k : float) (st : sim) : sim :=
  let len2 := 2 * s_len st in
  let ix := s_indices st in
  with_primary st ix
    (fold_left (fun am i =>
                  if testb (ix i) bit then
                    let am := arr_set len2 am (i * 2) (re_at am i * k)%float in
                    arr_set len2 am (i * 2 + 1) (im_at am i * k)%float
                  else am) (zseq (s_activeCount st)) (s_amplitudes st))
    (s_activeCount st).

(** [#applyStochasticNoise(qubit)] for one target qubit. *)
Definition noise_one (nm : noiseModel) (q : option handle) : M unit :=
  st <- get ;;
  bit <- liftO (bitOf st q) ;;
  r <- random ;;
  (if PrimFloat.ltb r (gateError nm) then (st <- get ;; put (xor_all bit st)) else ret tt) ;;;
  r2 <- random ;;
  (if PrimFloat.ltb r2 (t2 nm) then (st <- get ;; put (scale_set bit (-1)%float st))
   else ret tt) ;;;
  (if PrimFloat.ltb 0%float (t1 nm) then
     p1 <- getProb1 q ;;
     let jumpProb := (t1 nm * p1)%float in
     r3 <- random ;;
     if PrimFloat.ltb r3 jumpProb then
       collapse q 1 p1 ;;; st <- get ;; put (xor_all bit st)
     else
       let scale := PrimFloat.sqrt (1 - t1 nm)%float in
       st <- get ;; put (normalize_state (scale_set bit scale st))
   else ret tt).

Fixpoint forEachM (l : list (option handle)) (f : option handle -> M unit) : M unit :=
  match l with
  | [] => ret tt
  | q :: t => f q ;;; forEachM t f
  end.

Definition applyStochasticNoise (qubit : qref) : M unit :=
  st <- get ;;
  match s_noise st with
  | Some nm => forEachM (qubits_of qubit) (noise_one nm)
  | None => throw
  end.

(** The scatter destination of one gate step: the collision map (basis
    index to slot), [nextCount] and the scratch buffers. *)
Record scatter := mkScatter {
  sc_map : list (Z * Z); sc_next : Z; sc_ix : Z -> Z; sc_am : Z -> float
}.

Definition cm_get (k : Z) (cm : list (Z * Z)) : option Z :=
  match find (fun p => Z.eqb (fst p) k) cm with
  | Some (_, v) => Some v
  | None => None
  end.

(** [#accumulate(indices, amplitudes, map, idx, re, im, count)]; the
    caller passes [nextCount++], so [sc_next] advances on every call. *)
Definition accumulate (len : Z) (sc : scatter) (idx : Z) (re im : float) : scatter :=
  let count := sc_next sc in
  let len2 := 2 * len in
  let '(cm, ix, am, bPos) :=
    match cm_get idx (sc_map sc) with
    | Some b => (sc_map sc, sc_ix sc, sc_am sc, b)
    | None =>
        ((idx, count) :: sc_map sc, idx_set len (sc_ix sc) count idx,
         arr_set len2 (arr_set len2 (sc_am sc) (count * 2) 0%float) (count * 2 + 1) 0%float,
         count)
    end in
  let am := arr_set len2 am (bPos * 2) (re_at am bPos + re)%float in
  let am := arr_set len2 am (bPos * 2 + 1) (im_at am bPos + im)%float in
  mkScatter cm (count + 1) ix am.

(** One row of the generic scatter: look the destination up in the
    collision map, or take slot [nextCount++] and zero it; then
    [#updateState(amplitudesAux, bPos * 2, re, im, matrix[gIdx], matrix[gIdx + 1])]. *)
Definition scatter_row (len : Z) (m : list float) (re im : float) (sc : scatter)
    (row : Z * Z) : scatter :=
  let '(tIdx, gIdx) := row in
  let len2 := 2 * len in
  let '(cm, next, ix, am, bPos) :=
    match cm_get tIdx (sc_map sc) with
    | Some b => (sc_map sc, sc_next sc, sc_ix sc, sc_am sc, b)
    | None =>
        let b := sc_next sc in
        ((tIdx, b) :: sc_map sc, b + 1, idx_set len (sc_ix sc) b tIdx,
         arr_set len2 (arr_set len2 (sc_am sc) (b * 2) 0%float) (b * 2 + 1) 0%float, b)
    end in
  let gRe := nth (Z.to_nat gIdx) m nan in
  let gIm := nth (Z.to_nat (gIdx + 1)) m nan in
  let am := arr_set len2 am (bPos * 2) (re_at am bPos + (re * gRe - im * gIm))%float in
  let am := arr_set len2 am (bPos * 2 + 1) (im_at am bPos + (re * gIm + im * gRe))%float in
  mkScatter cm next ix am.

(** The loop [for (let i = 0; i < this.#activeCount; i++)] of a gate step,
    whose body may throw (reading an entry of an [undefined] matrix). *)
Definition scatter_loop (st : sim) (body : Z -> float -> float -> scatter -> option scatter)
    : option scatter :=
  fold_left (fun acc i =>
               match acc with
               | Some sc => body (s_indices st i) (re_at (s_amplitudes st) i)
                                 (im_at (s_amplitudes st) i) sc
               | None => None
               end) (zseq (s_activeCount st))
            (Some (mkScatter [] 0 (s_indicesAux st) (s_amplitudesAux st))).

(** [this.#activeCount = nextCount; this.#swapBuffers(); this.#prune();] *)
Definition finish (st : sim) (sc : scatter) : sim :=
  let st := mkSim (s_indices st) (s_amplitudes st) (sc_ix sc) (sc_am sc) (s_len st)
                  (sc_next sc) (s_qubits st) (s_noise st) (s_epsilon st)
                  (s_results st) (s_rng st) (s_draws st) in
  prune_state (swapBuffers st).

Definition need {A} (o : option A) (k : A -> option scatter) : option scatter :=
  match o with Some a => k a | None => None end.

(** [applyGate(gateName, qubitId, params)]. *)
Definition applyGate (gateName : string) (q : option handle) (ps : list float) : M unit :=
  fun st =>
    match bitOf st q with
    | None => None
    | Some targetBit =>
        let matrix := GATES gateName ps in
        let st := ensureCapacity (s_activeCount st * 2) st in
        let len := s_len st in
        match scatter_loop st (fun idx re im sc =>
          if String.eqb gateName "Z" then
            let sign := if testb idx targetBit then (-1)%float else 1%float in
            Some (accumulate len sc idx (re * sign)%float (im * sign)%float)
          else
            need matrix (fun m =>
              let col := if testb idx targetBit then 1 else 0 in
              let base := Z.land idx (Z.lnot targetBit) in
              let targets := [base; Z.lor base targetBit] in
              Some (fold_left (scatter_row len m re im) 
                      [(nth 0 targets 0, (0 * 2 + col) * 2);
                       (nth 1 targets 0, (1 * 2 + col) * 2)] sc))) with
        | Some sc => Some (tt, finish st sc)
        | None => None
        end
    end.

(** [apply2QubitGate(gateName, q1, q2, params)]. *)
Definition apply2QubitGate (gateName : string) (q1 q2 : option handle) (ps : list float)
    : M unit :=
  fun st =>
    match bitOf st q1, bitOf st q2 with
    | Some bit1, Some bit2 =>
        let mask := Z.lor bit1 bit2 in
        let matrix := GATES gateName ps in
        let st := ensureCapacity (s_activeCount st * 4) st in
        let len := s_len st in
        match scatter_loop st (fun idx re im sc =>
          if String.eqb gateName "CZ" then
            let sign := if Z.eqb (Z.land idx mask) mask then (-1)%float else 1%float in
            Some (accumulate len sc idx (re * sign)%float (im * sign)%float)
          else if String.eqb gateName "CNOT" || String.eqb gateName "SWAP" then
            let nextIdx :=
              if String.eqb gateName "CNOT" then
                (if testb idx bit1 then Z.lxor idx bit2 else idx)
              else if negb (Bool.eqb (testb idx bit1) (testb idx bit2))
              then Z.lxor idx mask else idx in
            Some (accumulate len sc nextIdx re im)
          else
            need matrix (fun m =>
              let col := Z.lor (if testb idx bit1 then 2 else 0)
                               (if testb idx bit2 then 1 else 0) in
              let base := Z.land idx (Z.lnot mask) in
              let offsets := [0; bit2; bit1; mask] in
              Some (fold_left (scatter_row len m re im)
                      (map (fun row => (Z.lor base (nth (Z.to_nat row) offsets 0),
                                        (row * 4 + col) * 2)) (zseq 4)) sc))) with
        | Some sc => Some (tt, finish st sc)
        | None => None
        end
    | _, _ => None
    end.

(** [apply3QubitGate(gateName, q1, q2, q3, params)]. *)
Definition apply3QubitGate (gateName : string) (q1 q2 q3 : option handle)
    (ps : list float) : M unit :=
  fun st =>
    match bitOf st q1, bitOf st q2, bitOf st q3 with
    | Some bit1, Some bit2, Some bit3 =>
        let mask := Z.lor (Z.lor bit1 bit2) bit3 in
        let matrix := GATES gateName ps in
        let st := ensureCapacity (s_activeCount st * 8) st in
        let len := s_len st in
        match scatter_loop st (fun idx re im sc =>
          need matrix (fun m =>
            let col := Z.lor (Z.lor (if testb idx bit1 then 4 else 0)
                                    (if testb idx bit2 then 2 else 0))
                             (if testb idx bit3 then 1 else 0) in
            let base := Z.land idx (Z.lnot mask) in
            let offsets := [0; bit3; bit2; Z.lor bit2 bit3; bit1; Z.lor bit1 bit3;
                            Z.lor bit1 bit2; mask] in
            Some (fold_left (scatter_row len m re im)
                    (map (fun row => (Z.lor base (nth (Z.to_nat row) offsets 0),
                                      (row * 8 + col) * 2)) (zseq 8)) sc))) with
        | Some sc => Some (tt, finish st sc)
        | None => None
        end
    | _, _, _ => None
    end.

(** [measure(qubitId)]. *)
Definition measure (q : option handle) : M Z :=
  prob1 <- getProb1 q ;;
  st <- get ;;
  prob1 <- (match s_noise st with
            | Some nm => r <- random ;;
                         ret (if PrimFloat.ltb r (readoutError nm)
                              then (1 - prob1)%float else prob1)
            | None => ret prob1
            end) ;;
  r <- random ;;
  let result := if PrimFloat.ltb r prob1 then 1 else 0 in
  collapse q result prob1 ;;;
  ret result.

Definition cond_holds (st : sim) (cq : handle) (v : Z) : bool :=
  match s_results st cq with Some r => Z.eqb r v | None => false end.

Definition single (q : qref) : option handle :=
  match q with QOne h => Some h | _ => None end.

(** The non-control part of one step of [run]: dispatch by arity, RESET
    and MEASURE; the result says whether the noise channel may follow. *)
Definition dispatch (op : instr) : M bool :=
  let ps := params op in
  match qubit op with
  | QMany qs =>
      (if (List.length qs =? 3)%nat
       then apply3QubitGate (gate op) (nth_error qs 0) (nth_error qs 1) (nth_error qs 2) ps
       else apply2QubitGate (gate op) (nth_error qs 0) (nth_error qs 1) ps) ;;;
      ret true
  | _ =>
      let q := single (qubit op) in
      if String.eqb (gate op) "RESET" then
        r <- measure q ;;
        (if Z.eqb r 1 then applyGate "X" q [] else ret tt) ;;;
        prune ;;;
        ret false
      else if String.eqb (gate op) "MEASURE" then
        res <- measure q ;;
        st <- get ;;
        match q with
        | Some h =>
            put (with_results st (fun k => if Nat.eqb k h then Some res else s_results st k)) ;;;
            prune ;;;
            ret false
        | None => throw
        end
      else applyGate (gate op) q ps ;;; ret true
  end.

(** One instruction of [run(instructions)]; a body is run by the same loop
    over its instructions.  A WHILE loop may run forever; [fuel] bounds its
    iterations, and running out of it is reported like an error. *)
Fixpoint run_op (fuel : nat) (op : instr) {struct op} : M unit :=
  match op with
  | mkInstr g q ps cnd bdy =>
      if String.eqb g "IF" then
        match cnd with
        | Some (cq, v) =>
            st <- get ;;
            if cond_holds st cq v then
              match bdy with
              | Some b =>
                  (fix run_body (l : list instr) : M unit :=
                     match l with
                     | [] => ret tt
                     | o :: t => run_op fuel o ;;; run_body t
                     end) b
              | None => throw
              end
            else ret tt
        | None => throw
        end
      else if String.eqb g "WHILE" then
        match cnd with
        | Some (cq, v) =>
            (fix loop (n : nat) : M unit :=
               st <- get ;;
               if cond_holds st cq v then
                 match n, bdy with
                 | S n', Some b =>
                     (fix run_body (l : list instr) : M unit :=
                        match l with
                        | [] => ret tt
                        | o :: t => run_op fuel o ;;; run_body t
                        end) b ;;;
                     loop n'
                 | _, _ => throw
                 end
               else ret tt) fuel
        | None => throw
        end
      else
        st <- get ;;
        let shouldApplyNoise := match s_noise st with Some _ => true | None => false end in
        noiseAllowed <- dispatch op ;;
        if shouldApplyNoise && noiseAllowed
        then applyStochasticNoise q ;;; prune
        else ret tt
  end.

(** [run(instructions)]. *)
Fixpoint run (fuel : nat) (l : list instr) : M unit :=
  match l with
  | [] => ret tt
  | op :: rest => run_op fuel op ;;; run fuel rest
  end.

(** [new Simulator(qubits, noiseModel, { epsilon })] with the draws of
    [Math.random]: [this.#epsilon = options.epsilon || null]. *)
Definition Simulator (qubits : list handle) (noise : option noiseModel)
    (epsilon : option float) (rng : nat -> float) : sim :=
  mkSim (fun _ => 0) (fun j => if Z.eqb j 0 then 1%float else 0%float)
        (fun _ => 0) (fun _ => 0%float) (memoryBudget * 2) 1 qubits noise
        (match epsilon with
         | Some e => if JS.truthy e then Some e else None
         | None => None
         end)
        (fun _ => None) rng 0.

(** [isZero(qubitId)]. *)
Definition isZero (q : handle) : M bool :=
  p <- getProb1 (Some q) ;;
  st <- get ;;
  ret (PrimFloat.ltb p (getEffectiveEpsilon st)).

Definition getResult (st : sim) (q : handle) : option Z := s_results st q.

(** The active entries [(index, re, im)], slot by slot. *)
Definition active (st : sim) : list (Z * float * float) :=
  map (fun i => (s_indices st i, re_at (s_amplitudes st) i, im_at (s_amplitudes st) i))
      (zseq (s_activeCount st)).

End Sim.

(** ** Qubit manager (qubit-manager.js) *)
Module QubitManager.

(** What [release] asks of a simulator: [isZero(id)], which may throw
    ([None]). *)
Class SimulatorLike (S : Type) := isZeroS : handle -> S -> option bool.

#[global] Instance simSimulatorLike : SimulatorLike sim :=
  fun h st => option_map fst (isZero h st).

(** The registry [#registry = new Set()]; [next] stands for the supply of
    fresh [Symbol("qubit")] identities. *)
Record manager := mkManager { next : nat; registry : list handle }.

Definition isAllocated (m : manager) (id : handle) : bool :=
  existsb (Nat.eqb id) (registry m).

Definition allocate (m : manager) : handle * manager :=
  (next m, mkManager (S (next m)) (registry m ++ [next m])%list).

Inductive error := ReleaseError (id : handle) | SimulatorThrew.

(** [release(id, simulator)]: the manager afterwards, and the error thrown,
    if any. *)
Definition release {S} `{SimulatorLike S} (id : handle) (simulator : S) (m : manager)
    : manager * option error :=
  match isZeroS id simulator with
  | None => (m, Some SimulatorThrew)
  | Some false => (m, Some (ReleaseError id))
  | Some true =>
      (mkManager (next m) (filter (fun x => negb (Nat.eqb x id)) (registry m)), None)
  end.

End QubitManager.

(** ** Operation recorder (operations.js) and the scope's flush hook (index.js) *)

(** A user callback, as the sequence of recorder calls it makes. *)
Inductive call :=
  | Ch (q : handle) | Cx (q : handle) | Cy (q : handle) | Cz (q : handle)
  | Cs (q : handle) | Ct (q : handle)
  | Crx (q : handle) (th : float) | Cry (q : handle) (th : float) | Crz (q : handle) (th : float)
  | Cu3 (q : handle) (th phi lam : float)
  | Ccnot (c t : handle) | Ccz (c t : handle) | Crzz (a b : handle) (th : float)
  | Cswap (a b : handle) | Cccx (a b c : handle) | Creset (q : handle)
  | Cif (q : handle) (v : Z) (cb : list call)
  | Cwhile (q : handle) (v : Z) (cb : list call)
  | Cm (q : handle).

Section Recorder.

Variables Math_cos Math_sin : float -> float.
(** The bound on WHILE iterations of every [sim.run]. *)
Variable fuel : nat.

(** The scope's state: the qubit manager, the top-level IR buffer [circuit]
    of [Q.use] and its simulator. *)
Record scope := mkScope {
  sc_manager : QubitManager.manager;
  sc_circuit : list instr;
  sc_sim : sim
}.

(** The result of a call: the scope and the contents of the recorder's own
    circuit; or a recorder error ([validate], a qubit controlling or
    swapped with itself), thrown before any instruction is appended, with
    the scope at that moment; or an error thrown inside a flush, by
    [Compiler.compile] or [sim.run].  After the last one the simulator
    may have run a prefix of the compiled program and [prune] may have
    rewritten the buffered instruction objects in place; the model keeps
    only the manager, which a flush never touches. *)
Inductive outcome :=
  | Ok (s : scope) (own : list instr)
  | Err (s : scope)
  | Crash (m : QubitManager.manager).

(** [flush(measureQubit)]: compile the IR, run it, clear the IR, and read
    the measured qubit's result; [None] when [compile] or [sim.run]
    throws (the state this leaves is not tracked, see [Crash]). *)
Definition flush (mq : option handle) (s : scope) : option (option Z * scope) :=
  match Compiler.compile (sc_circuit s) with
  | None => None
  | Some compiled =>
      match run Math_cos Math_sin fuel compiled (sc_sim s) with
      | None => None
      | Some (_, st) =>
          Some (match mq with Some q => getResult st q | None => None end,
                mkScope (sc_manager s) [] st)
      end
  end.

(** A recorder is bound either to the scope's circuit ([main = true]) or to
    the fresh circuit of an [if]/[while] block, whose contents it carries. *)
Definition emit (main : bool) (s : scope) (own : list instr) (i : instr) : outcome :=
  if main then Ok (mkScope (sc_manager s) (sc_circuit s ++ [i])%list (sc_sim s)) own
  else Ok s (own ++ [i])%list.

Definition valid (s : scope) (q : handle) : bool :=
  QubitManager.isAllocated (sc_manager s) q.

Definition g1 (main : bool) (s : scope) (own : list instr) (g : string) (q : handle)
    (ps : list float) : outcome :=
  if valid s q then emit main s own (mkInstr g (QOne q) ps None None) else Err s.

(** [ops.cnot] and [ops.cz]: validate both, then refuse [ctrl === trgt]. *)
Definition controlled (main : bool) (s : scope) (own : list instr) (g : string)
    (c t : handle) : outcome :=
  if valid s c then if valid s t then
    if Nat.eqb c t then Err s else emit main s own (mkInstr g (QMany [c; t]) [] None None)
  else Err s else Err s.

(** One call of the recorder bound to [main]/[own]; a block's callback
    runs against a recorder bound to a fresh circuit. *)
Fixpoint exec (main : bool) (c : call) (s : scope) (own : list instr) {struct c} : outcome :=
  match c with
  | Ch q => g1 main s own "H" q []
  | Cx q => g1 main s own "X" q []
  | Cy q => g1 main s own "Y" q []
  | Cz q => g1 main s own "Z" q []
  | Cs q => g1 main s own "S" q []
  | Ct q => g1 main s own "T" q []
  | Crx q th => g1 main s own "RX" q [th]
  | Cry q th => g1 main s own "RY" q [th]
  | Crz q th => g1 main s own "RZ" q [th]
  | Cu3 q th phi lam => g1 main s own "U3" q [th; phi; lam]
  | Ccnot c t => controlled main s own "CNOT" c t
  | Ccz c t => controlled main s own "CZ" c t
  | Crzz a b th =>
      if valid s a then if valid s b then
        emit main s own (mkInstr "RZZ" (QMany [a; b]) [th] None None)
      else Err s else Err s
  | Cswap a b =>
      if valid s a then if valid s b then
        if Nat.eqb a b then Err s
        else emit main s own (mkInstr "SWAP" (QMany [a; b]) [] None None)
      else Err s else Err s
  | Cccx a b t =>
      if valid s a then if valid s b then if valid s t then
        emit main s own (mkInstr "CCX" (QMany [a; b; t]) [] None None)
      else Err s else Err s else Err s
  | Creset q => g1 main s own "RESET" q []
  | Cif q v cb =>
      if valid s q then
        match (fix exec_cb (l : list call) (s : scope) (sub : list instr) : outcome :=
                 match l with
                 | [] => Ok s sub
                 | c :: t => match exec false c s sub with
                             | Ok s sub => exec_cb t s sub
                             | Err s => Err s
                             | Crash m => Crash m
                             end
                 end) cb s [] with
        | Ok s' sub => emit main s' own (mkInstr "IF" QNull [] (Some (q, v)) (Some sub))
        | Err s' => Err s'
        | Crash m => Crash m
        end
      else Err s
  | Cwhile q v cb =>
      if valid s q then
        match (fix exec_cb (l : list call) (s : scope) (sub : list instr) : outcome :=
                 match l with
                 | [] => Ok s sub
                 | c :: t => match exec false c s sub with
                             | Ok s sub => exec_cb t s sub
                             | Err s => Err s
                             | Crash m => Crash m
                             end
                 end) cb s [] with
        | Ok s' sub => emit main s' own (mkInstr "WHILE" QNull [] (Some (q, v)) (Some sub))
        | Err s' => Err s'
        | Crash m => Crash m
        end
      else Err s
  | Cm q =>
      if valid s q then
        match emit main s own (mkInstr "MEASURE" (QOne q) [] None None) with
        | Ok s1 own1 =>
            match flush (Some q) s1 with
            | Some (_, s2) => Ok s2 own1
            | None => Crash (sc_manager s1)
            end
        | o => o
        end
      else Err s
  end.

(** A callback: its calls in order. *)
Fixpoint exec_all (main : bool) (l : list call) (s : scope) (own : list instr) : outcome :=
  match l with
  | [] => Ok s own
  | c :: t => match exec main c s own with
              | Ok s own => exec_all main t s own
              | Err s => Err s
              | Crash m => Crash m
              end
  end.

(** [ops.m(q)] on the scope's recorder, with the bit it returns. *)
Definition m_result (q : handle) (s : scope) : option (option Z * scope) :=
  if valid s q then flush (Some q) (mkScope (sc_manager s) (sc_circuit s ++ [op1 "MEASURE" q])%list (sc_sim s))
  else None.

End Recorder.

(** ** The transpiler's table, as the specification states it *)
Module TranspilerSpec.

Definition HALF_PI : float := (JS.PI / 2)%float.

Definition u3_on (q : qref) (a b c : float) : instr := mkInstr "U3" q [a; b; c] None None.
Definition cnot_on (a b : handle) : instr := mkInstr "CNOT" (QMany [a; b]) [] None None.

(** The angle θ of a rotation. *)
Definition theta (op : instr) : float := param 0 (params op).

Definition table : list (string * (instr -> list instr)) := [
  ("H", fun op => [u3_on (qubit op) HALF_PI 0 JS.PI]);
  ("X", fun op => [u3_on (qubit op) JS.PI 0 JS.PI]);
  ("Y", fun op => [u3_on (qubit op) JS.PI HALF_PI HALF_PI]);
  ("Z", fun op => [u3_on (qubit op) 0 0 JS.PI]);
  ("RX", fun op => [u3_on (qubit op) (theta op) (- HALF_PI) HALF_PI]);
  ("RY", fun op => [u3_on (qubit op) (theta op) 0 0]);
  ("RZ", fun op => [u3_on (qubit op) 0 0 (theta op)]);
  ("SWAP", fun op => match qubit op with
                     | QMany (a :: b :: _) => [cnot_on a b; cnot_on b a; cnot_on a b]
                     | _ => [op]
                     end);
  ("CZ", fun op => match qubit op with
                   | QMany (c :: t :: _) =>
                       [u3_on (QOne t) HALF_PI 0 JS.PI; cnot_on c t;
                        u3_on (QOne t) HALF_PI 0 JS.PI]
                   | _ => [op]
                   end)
]%float.

Fixpoint lookup (g : string) (t : list (string * (instr -> list instr)))
    : option (instr -> list instr) :=
  match t with
  | [] => None
  | (k, f) :: rest => if String.eqb g k then Some f else lookup g rest
  end.

(** Gates of the table are expanded, every other name passes through. *)
Definition expand (op : instr) : list instr :=
  match lookup (gate op) table with
  | Some f => f op
  | None => [op]
  end.

(** SWAP and CZ name (at least) two qubits. *)
Definition two_operands (op : instr) : Prop :=
  (gate op = "SWAP" \/ gate op = "CZ") -> exists a b r, qubit op = QMany (a :: b :: r).

End TranspilerSpec.

(** A draw of [Math.random()] lies in [0, 1). *)
Definition random_range (rng : nat -> float) : Prop :=
  forall k, (0 <=? rng k)%float = true /\ (rng k <? 1)%float = true.

(** A scope with one allocated qubit [0], a fresh one-qubit simulator and
    the given IR buffer. *)
Definition scope0 (circuit : list instr) : scope :=
  mkScope (QubitManager.mkManager 1 [0%nat]) circuit (Simulator [0%nat] None None (fun _ => 0.5%float)).

(** Occupied slots of the optimizer's working array. *)
Fixpoint count_some {A} (l : list (option A)) : nat :=
  match l with
  | [] => 0
  | Some _ :: t => S (count_some t)
  | None :: t => count_some t
  end.

(** [g] is [g0] or what the phase rewrites T -> S -> Z make of it. *)
Definition derived (g0 g : string) : bool :=
  String.eqb g g0 || (String.eqb g0 "S" && String.eqb g "Z")
  || (String.eqb g0 "T" && (String.eqb g "S" || String.eqb g "Z")).

(** [o] carries the qubits, condition and body of an op of [l] and its
    gate or a phase rewrite of it. *)
Definition from_input (l : list instr) (o : instr) : Prop :=
  exists i, In i l /\ qubit o = qubit i /\ condition o = condition i /\ body o = body i /\
            derived (gate i) (gate o) = true.

(** An occupied slot holds an op that comes from [l]. *)
Definition slot_ok (l : list instr) (x : option instr) : Prop :=
  match x with Some o => from_input l o | None => True end.

(** The gate names [#decompose] rewrites. *)
Definition nonnative : list string := ["H"; "X"; "Y"; "Z"; "RX"; "RY"; "RZ"; "SWAP"; "CZ"].

(** Every registered handle is below [next]: no fresh identity has been
    handed out before. *)
Definition manager_wf (m : QubitManager.manager) : Prop :=
  Forall (fun h => (h < QubitManager.next m)%nat) (QubitManager.registry m).

(** The manager an outcome ends with. *)
Definition omanager (o : outcome) : QubitManager.manager :=
  match o with Ok s _ => sc_manager s | Err s => sc_manager s | Crash m => m end.

(** A call that makes no [m] call, also inside its blocks. *)
Fixpoint no_measure (c : call) : bool :=
  match c with
  | Cm _ => false
  | Cif _ _ cb | Cwhile _ _ cb => forallb no_measure cb
  | _ => true
  end.

(** [s'] has the manager and the simulator of [s], and its IR buffer
    extends that of [s]. *)
Definition extends (s s' : scope) : Prop :=
  sc_manager s' = sc_manager s /\ sc_sim s' = sc_sim s /\
  exists d, sc_circuit s' = (sc_circuit s ++ d)%list.

(** What a call of the scope's recorder does when it makes no [m] call:
    it extends the IR buffer only, also when it throws, and no flush runs. *)
Definition main_effect (s : scope) (own : list instr) (o : outcome) : Prop :=
  match o with
  | Ok s' own' => own' = own /\ extends s s'
  | Err s' => extends s s'
  | Crash _ => False
  end.

(** What a call of a block's recorder does when it makes no [m] call: it
    keeps the scope and only appends to the block's own circuit; when it
    throws, the scope is as it was, and no flush runs. *)
Definition block_effect (s : scope) (own : list instr) (o : outcome) : Prop :=
  match o with
  | Ok s' own' => s' = s /\ exists d, own' = (own ++ d)%list
  | Err s' => s' = s
  | Crash _ => False
  end.

(** ** [Q.use] (index.js) *)
Module Q.

(** [Array.from({ length: count }, () => manager.allocate())]. *)
Fixpoint alloc_n (n : nat) (m : QubitManager.manager) : list handle * QubitManager.manager :=
  match n with
  | O => ([], m)
  | S k => let '(q, m1) := QubitManager.allocate m in
           let '(qs, m2) := alloc_n k m1 in (q :: qs, m2)
  end.

(** [qubits.forEach((q) => manager.release(q, sim))]: the first release
    that throws ends the loop. *)
Fixpoint release_all (qs : list handle) (st : sim) (m : QubitManager.manager)
    : QubitManager.manager * option QubitManager.error :=
  match qs with
  | [] => (m, None)
  | q :: t => match QubitManager.release q st m with
              | (m1, None) => release_all t st m1
              | (m1, Some e) => (m1, Some e)
              end
  end.

(** The error [Q.use] throws: the callback's recorder error, rethrown when
    the [finally] block completes, or the error of the [finally] block,
    which replaces it. *)
Inductive use_error := CallbackThrew | FlushThrew | ReleaseThrew (e : QubitManager.error).

(** [Q.use(count, callback, noiseModel)] on the module's [manager]: the
    manager afterwards and the error thrown, if any.  The [finally] block
    runs [flush()], then the release loop, whether the callback returned or
    threw a recorder error.  A callback whose own flush threw gives [None]:
    the state that leaves is not tracked (see [Crash]). *)
Definition use (cos sin : float -> float) (fuel : nat) (count : nat)
    (callback : list handle -> list call) (noise : option noiseModel) (rng : nat -> float)
    (m : QubitManager.manager) : option (QubitManager.manager * option use_error) :=
  let '(qubits, m1) := alloc_n count m in
  let s0 := mkScope m1 [] (Simulator qubits noise None rng) in
  let fin (s1 : scope) (e : option use_error) :=
    match flush cos sin fuel None s1 with
    | None => Some (sc_manager s1, Some FlushThrew)
    | Some (_, s2) =>
        match release_all qubits (sc_sim s2) (sc_manager s2) with
        | (m2, None) => Some (m2, e)
        | (m2, Some e') => Some (m2, Some (ReleaseThrew e'))
        end
    end in
  match exec_all cos sin fuel true (callback qubits) s0 [] with
  | Ok s1 _ => fin s1 None
  | Err s1 => fin s1 (Some CallbackThrew)
  | Crash _ => None
  end.

End Q.

(** * Properties *)

(** ** Optimizer *)

Lemma isIdentity_S (q : qref) (ps : list float) (c : option (handle * Z))
    (b : option (list instr)) : Optimizer.isIdentity (mkInstr "S" q ps c b) = false.
Proof. unfold Optimizer.isIdentity; destruct ps; reflexivity. Qed.

Lemma isIdentity_T (q : qref) (ps : list float) (c : option (handle * Z))
    (b : option (list instr)) : Optimizer.isIdentity (mkInstr "T" q ps c b) = false.
Proof. unfold Optimizer.isIdentity; destruct ps; reflexivity. Qed.

Lemma isIdentity_Z (q : qref) (ps : list float) (c : option (handle * Z))
    (b : option (list instr)) : Optimizer.isIdentity (mkInstr "Z" q ps c b) = false.
Proof. unfold Optimizer.isIdentity; destruct ps; reflexivity. Qed.

(** The second of two S gates (or T gates) on one qubit finds the first
    as its partner, which is rewritten in place. *)
Lemma step_phase_pair (g g' : string) (q : handle) (ps1 ps2 : list float)
    (c1 c2 : option (handle * Z)) (b1 b2 : option (list instr)) :
  Optimizer.isIdentity (mkInstr g (QOne q) ps1 c1 b1) = false ->
  Optimizer.isIdentity (mkInstr g (QOne q) ps2 c2 b2) = false ->
  (g = "S" /\ g' = "Z" \/ g = "T" /\ g' = "S") ->
  fold_left Optimizer.step [mkInstr g (QOne q) ps1 c1 b1; mkInstr g (QOne q) ps2 c2 b2] ([], [])
  = ([Some (mkInstr g' (QOne q) ps1 c1 b1)], [(Some q, [0%nat])]).
Proof.
  intros H1 H2 Hg. simpl.
  unfold Optimizer.step. rewrite H1. simpl. rewrite H2.
  unfold Optimizer.findCommutingPartner; simpl. rewrite Nat.eqb_refl. simpl.
  rewrite String.eqb_refl, Nat.eqb_refl. simpl.
  destruct Hg as [[-> ->] | [-> ->]]; reflexivity.
Qed.

(** C3: [prune([S(q), S(q)])] is one Z gate on q, and [prune([T(q), T(q)])]
    is one S gate on q (the partner keeps its other fields). *)
Theorem C3_prune_SS_TT (q : handle) (ps1 ps2 : list float)
    (c1 c2 : option (handle * Z)) (b1 b2 : option (list instr)) :
  Optimizer.prune [mkInstr "S" (QOne q) ps1 c1 b1; mkInstr "S" (QOne q) ps2 c2 b2]
    = [mkInstr "Z" (QOne q) ps1 c1 b1] /\
  Optimizer.prune [mkInstr "T" (QOne q) ps1 c1 b1; mkInstr "T" (QOne q) ps2 c2 b2]
    = [mkInstr "S" (QOne q) ps1 c1 b1].
Proof.
  unfold Optimizer.prune. split.
  - rewrite (step_phase_pair "S" "Z"); try apply isIdentity_S; auto.
    simpl. rewrite isIdentity_Z. reflexivity.
  - rewrite (step_phase_pair "T" "S"); try apply isIdentity_T; auto.
    simpl. rewrite isIdentity_S. reflexivity.
Qed.

Lemma canCommute_S_RZ (q : handle) (ps : list float) :
  Optimizer.canCommute (op1 "S" q) (op1p "RZ" q ps) = false /\
  Optimizer.canCommute (op1p "RZ" q ps) (op1 "S" q) = false.
Proof.
  unfold Optimizer.canCommute, op1, op1p; cbn. rewrite Nat.eqb_refl; split; reflexivity.
Qed.

(** C2 (code bug): with [RZ(q, a), S(q), RZ(q, b)] the second RZ walks back
    to the S, which shares q.  The rule RZ/S is found, but neither gate has
    an array qubit, so [multiQubitGate] is the S, [S.qubit[0]] is
    [undefined] and [isControl] is false: the role [control] rejects, the
    S closes the window, and nothing is merged.  For every qubit q, the
    three instructions come back unchanged (here a = 0.1, b = 0.2). *)
Theorem C2_rz_s_rz_not_merged (q : handle) :
  Optimizer.prune [op1p "RZ" q [0.1%float]; op1 "S" q; op1p "RZ" q [0.2%float]]
  = [op1p "RZ" q [0.1%float]; op1 "S" q; op1p "RZ" q [0.2%float]].
Proof.
  pose proof (canCommute_S_RZ q [0.1%float]) as [E1 _].
  pose proof (canCommute_S_RZ q [0.2%float]) as [_ E2].
  assert (I1 : Optimizer.isIdentity (op1p "RZ" q [0.1%float]) = false) by reflexivity.
  assert (I2 : Optimizer.isIdentity (op1 "S" q) = false) by reflexivity.
  assert (I3 : Optimizer.isIdentity (op1p "RZ" q [0.2%float]) = false) by reflexivity.
  assert (F1 : Optimizer.findCommutingPartner (op1 "S" q) [(Some q, [0%nat])]
                 [Some (op1p "RZ" q [0.1%float])] = None).
  { unfold Optimizer.findCommutingPartner. simpl. rewrite Nat.eqb_refl. simpl.
    rewrite E1. reflexivity. }
  assert (F2 : Optimizer.findCommutingPartner (op1p "RZ" q [0.2%float]) [(Some q, [0%nat; 1%nat])]
                 [Some (op1p "RZ" q [0.1%float]); Some (op1 "S" q)] = None).
  { unfold Optimizer.findCommutingPartner. simpl. rewrite Nat.eqb_refl. simpl.
    rewrite E2. reflexivity. }
  unfold Optimizer.prune. simpl. rewrite I1. simpl. rewrite F1. simpl.
  rewrite Nat.eqb_refl. unfold Optimizer.step. rewrite I3. simpl app. rewrite F2. simpl.
  rewrite ?Nat.eqb_refl. simpl. rewrite ?I1, ?I2, ?I3.
  reflexivity.
Qed.

(** ** Transpiler *)

Lemma decompose_expand (op : instr) :
  TranspilerSpec.two_operands op ->
  Transpiler.decompose op = Some (TranspilerSpec.expand op).
Proof.
  destruct op as [g q ps c b]. unfold TranspilerSpec.two_operands. simpl. intros Hq.
  unfold Transpiler.decompose, TranspilerSpec.expand. simpl.
  destruct (String.eqb g "H"); [reflexivity|].
  destruct (String.eqb g "X"); [reflexivity|].
  destruct (String.eqb g "Y"); [reflexivity|].
  destruct (String.eqb g "Z"); [reflexivity|].
  destruct (String.eqb g "RX"); [reflexivity|].
  destruct (String.eqb g "RY"); [reflexivity|].
  destruct (String.eqb g "RZ"); [reflexivity|].
  destruct (String.eqb_spec g "SWAP") as [Hs|_].
  { destruct Hq as (a & b' & r & ->); [left; exact Hs|]. reflexivity. }
  destruct (String.eqb_spec g "CZ") as [Hc|_].
  { destruct Hq as (a & b' & r & ->); [right; exact Hc|]. reflexivity. }
  reflexivity.
Qed.

(** C4: for every instruction list whose SWAP and CZ instructions name two
    qubits, [Transpiler.transpile] is the in-order concatenation of the
    specification's per-instruction expansion: H, X, Y, Z, RX(θ), RY(θ),
    RZ(θ) to the one U3 of the table, SWAP(a, b) to three CNOTs, CZ(c, t) to
    U3 on t, CNOT(c, t), U3 on t, and every other gate name unchanged. *)
Theorem C4_transpile_table (l : list instr) :
  Forall TranspilerSpec.two_operands l ->
  Transpiler.transpile l = Some (flat_map TranspilerSpec.expand l).
Proof.
  induction 1 as [|op l Hop _ IH]; [reflexivity|].
  simpl. rewrite (decompose_expand op Hop), IH. reflexivity.
Qed.

Lemma C4_transpile_table_witness :
  Forall TranspilerSpec.two_operands [opn "SWAP" [0; 1]%nat; op1p "RX" 2%nat [1%float]] /\
  Transpiler.transpile [opn "SWAP" [0; 1]%nat; op1p "RX" 2%nat [1%float]]
  = Some (flat_map TranspilerSpec.expand [opn "SWAP" [0; 1]%nat; op1p "RX" 2%nat [1%float]]).
Proof.
  assert (H : Forall TranspilerSpec.two_operands [opn "SWAP" [0; 1]%nat; op1p "RX" 2%nat [1%float]]).
  { constructor.
    - intros _. exists 0%nat, 1%nat, []. reflexivity.
    - constructor; [|constructor]. intros [E|E]; discriminate E. }
  split; [exact H | apply (C4_transpile_table _ H)].
Defined.

(** ** Simulator *)

Lemma leb0_not_ltb0 (x : float) : (0 <=? x)%float = true -> (x <? 0)%float = false.
Proof.
  rewrite leb_spec, ltb_spec. intros H.
  destruct (Prim2SF x) as [s|s| |s m e]; try destruct s; cbv in H |- *;
    try reflexivity; try discriminate H.
Qed.

Lemma bind_some {A B} (m : M A) (f : A -> M B) st a st' :
  m st = Some (a, st') -> bind m f st = f a st'.
Proof. intros H; unfold bind; rewrite H; reflexivity. Qed.

Lemma bitOf_single (st : sim) (q : handle) : s_qubits st = [q] -> bitOf st (Some q) = Some 1.
Proof. intros H; unfold bitOf; rewrite H; simpl; rewrite Nat.eqb_refl; reflexivity. Qed.

Lemma noise_flip (st : sim) (q : handle) (bit : Z) :
  s_noise st = Some (mkNoise 1 0 0 0) ->
  bitOf st (Some q) = Some bit ->
  (s_rng st (s_draws st) <? 1)%float = true ->
  (s_rng st (S (s_draws st)) <? 0)%float = false ->
  applyStochasticNoise (QOne q) st
  = Some (tt, with_draws (xor_all bit (with_draws st (S (s_draws st)))) (S (S (s_draws st)))).
Proof.
  intros Hn Hb H1 H2.
  unfold applyStochasticNoise, forEachM, noise_one, bind, get, liftO, random, put, ret.
  rewrite Hn. cbn -[bitOf xor_all with_draws]. rewrite Hb. cbn -[bitOf xor_all with_draws]. rewrite H1. simpl. rewrite H2. reflexivity.
Qed.

Lemma measure_no_flip (st st' : sim) (q : handle) (nm : noiseModel) (p : float) :
  getProb1 (Some q) st = Some (p, st) ->
  s_noise st = Some nm ->
  (s_rng st (s_draws st) <? readoutError nm)%float = false ->
  (s_rng st (S (s_draws st)) <? p)%float = false ->
  collapse (Some q) 0 p (with_draws (with_draws st (S (s_draws st))) (S (S (s_draws st))))
    = Some (tt, st') ->
  measure (Some q) st = Some (0, st').
Proof.
  intros Hp Hn H1 H2 Hc.
  unfold measure, bind, get, random, ret. rewrite Hp, Hn. cbn -[collapse with_draws].
  rewrite H1. cbn -[collapse with_draws]. 
  change (s_rng (with_draws st (S (s_draws st))) (s_draws (with_draws st (S (s_draws st)))))
    with (s_rng st (S (s_draws st))).
  change (S (s_draws (with_draws st (S (s_draws st))))) with (S (S (s_draws st))).
  rewrite H2, Hc. reflexivity.
Qed.

Ltac vm_lhs := match goal with |- ?l = _ => let l' := eval vm_compute in l in change l with l' end.

(** C6: with [gateError = 1] and the other rates 0, the program X(q);
    MEASURE(q) on a fresh one-qubit simulator records the result 0, for every
    sequence of draws in [0, 1) (and whatever [Math.cos], [Math.sin]). *)
Theorem C6_gate_error_saturated (q : handle) (rng : nat -> float) (fuel : nat)
    (cos sin : float -> float) :
  random_range rng ->
  option_map (fun p => getResult (snd p) q)
    (run cos sin fuel [op1 "X" q; op1 "MEASURE" q]
         (Simulator [q] (Some (mkNoise 1 0 0 0)) None rng))
  = Some (Some 0).
Proof.
  intros Hr.
  destruct (Hr 0%nat) as [_ R0].
  pose proof (leb0_not_ltb0 _ (proj1 (Hr 1%nat))) as R1.
  pose proof (leb0_not_ltb0 _ (proj1 (Hr 2%nat))) as R2.
  pose proof (leb0_not_ltb0 _ (proj1 (Hr 3%nat))) as R3.
  set (st0 := Simulator [q] (Some (mkNoise 1 0 0 0)) None rng).
  evar (st1 : sim).
  assert (A1 : applyGate cos sin "X" (Some q) [] st0 = Some (tt, st1)).
  { unfold applyGate. rewrite (bitOf_single st0 q eq_refl). vm_lhs. subst st1. reflexivity. }
  set (st3 := prune_state (with_draws (xor_all 1 (with_draws st1 1)) 2)).
  assert (A3 : getProb1 (Some q) st3 = Some (0%float, st3)).
  { unfold getProb1. rewrite (bitOf_single st3 q eq_refl). vm_lhs. reflexivity. }
  evar (st4 : sim).
  assert (A4 : collapse (Some q) 0 0%float
                 (with_draws (with_draws st3 (S (s_draws st3))) (S (S (s_draws st3))))
               = Some (tt, st4)).
  { unfold collapse.
    rewrite (bitOf_single (with_draws (with_draws st3 (S (s_draws st3))) (S (S (s_draws st3)))) q eq_refl).
    vm_lhs. subst st4. reflexivity. }
  assert (A5 : measure (Some q) st3 = Some (0, st4)).
  { apply (measure_no_flip st3 st4 q (mkNoise 1 0 0 0) 0%float A3 eq_refl R2 R3 A4). }
  unfold run.
  rewrite (bind_some _ _ st0 tt st3).
  2:{ unfold run_op. cbn -[dispatch applyStochasticNoise prune].
      rewrite (bind_some _ _ st0 true st1).
      2:{ unfold dispatch. cbn -[applyGate]. rewrite (bind_some _ _ st0 tt st1 A1). reflexivity. }
      cbn -[applyStochasticNoise prune].
      rewrite (bind_some _ _ st1 tt (with_draws (xor_all 1 (with_draws st1 1)) 2)).
      2:{ apply (noise_flip st1 q 1 eq_refl (bitOf_single st1 q eq_refl) R0 R1). }
      reflexivity. }
  unfold run_op. cbn -[dispatch applyStochasticNoise prune].
  set (st5 := prune_state (with_results st4 (fun k => if Nat.eqb k q then Some 0 else s_results st4 k))).
  rewrite (bind_some _ _ st3 tt st5).
  2:{ unfold bind at 1, get.
      rewrite (bind_some _ _ st3 false st5).
      2:{ unfold dispatch. cbn -[measure prune]. rewrite (bind_some _ _ st3 0 st4 A5). reflexivity. }
      reflexivity. }
  lazy beta iota zeta delta -[Nat.eqb]. rewrite Nat.eqb_refl. reflexivity.
Qed.

Lemma C6_gate_error_saturated_witness :
  random_range (fun _ => 0.5%float) /\
  option_map (fun p => getResult (snd p) 0%nat)
    (run (fun x => x) (fun x => x) 0 [op1 "X" 0%nat; op1 "MEASURE" 0%nat]
         (Simulator [0%nat] (Some (mkNoise 1 0 0 0)) None (fun _ => 0.5%float)))
  = Some (Some 0).
Proof.
  assert (H : random_range (fun _ => 0.5%float)) by (intros k; split; reflexivity).
  split; [exact H | apply (C6_gate_error_saturated 0%nat _ 0%nat _ _ H)].
Defined.

(** A truthy epsilon override is kept and used as the effective epsilon. *)
Lemma truthy_override_kept (qs : list handle) (noise : option noiseModel) (e : float)
    (rng : nat -> float) :
  JS.truthy e = true ->
  getEffectiveEpsilon (Simulator qs noise (Some e) rng) = e.
Proof. intros H. unfold getEffectiveEpsilon, Simulator. simpl. rewrite H. reflexivity. Qed.

(** C5 (code bug): [options.epsilon || null] drops an override equal to 0.
    A simulator built with the override 0 stores no override, its effective
    epsilon is [100 × pruneThreshold(1)], not 0, and [isZero(q)] on the
    fresh state is true (probability 0 is below that epsilon), where an
    effective epsilon of 0 would make it false. *)
Theorem C5_zero_override_dropped (q : handle) (noise : option noiseModel)
    (rng : nat -> float) :
  let st := Simulator [q] noise (Some 0%float) rng in
  s_epsilon st = None /\
  getEffectiveEpsilon st = (pruneThreshold 1 * 100)%float /\
  getEffectiveEpsilon st <> 0%float /\
  option_map fst (isZero q st) = Some true /\
  option_map (fun p => PrimFloat.ltb (fst p) 0%float) (getProb1 (Some q) st) = Some false.
Proof.
  intros st.
  assert (Hb : bitOf st (Some q) = Some 1) by (apply bitOf_single; reflexivity).
  split; [reflexivity|]. split; [reflexivity|]. split.
  { intros E. apply (f_equal (fun x => PrimFloat.eqb x 0%float)) in E.
    vm_compute in E. discriminate E. }
  unfold isZero, bind, get, ret, getProb1. rewrite Hb. split; vm_compute; reflexivity.
Qed.

(** ** Reset *)

Lemma prune_state_results (st : sim) : s_results (prune_state st) = s_results st.
Proof. unfold prune_state. destruct (fold_left _ _ _) as [[ix am] w]. reflexivity. Qed.

Lemma ensureCapacity_results (n : Z) (st : sim) : s_results (ensureCapacity n st) = s_results st.
Proof. unfold ensureCapacity. destruct (_ <? _); reflexivity. Qed.

Lemma finish_results (st : sim) (sc : scatter) : s_results (finish st sc) = s_results st.
Proof. unfold finish. rewrite prune_state_results. reflexivity. Qed.

Lemma applyGate_results cos sin g q ps (st st' : sim) :
  applyGate cos sin g q ps st = Some (tt, st') -> s_results st' = s_results st.
Proof.
  unfold applyGate. destruct (bitOf st q) as [tb|]; [|discriminate].
  destruct (scatter_loop _ _) as [sc|]; [|discriminate].
  intros H. inversion H. rewrite finish_results, ensureCapacity_results. reflexivity.
Qed.

Lemma collapse_results q r p (st st' : sim) :
  collapse q r p st = Some (tt, st') -> s_results st' = s_results st.
Proof.
  unfold collapse. destruct (bitOf st q) as [tb|]; [|discriminate].
  destruct (fold_left _ _ _) as [[ix am] w]. intros H. inversion H. reflexivity.
Qed.

Lemma getProb1_state q (st st' : sim) p : getProb1 q st = Some (p, st') -> st' = st.
Proof.
  unfold getProb1. destruct (bitOf st q); [|discriminate]. intros H. inversion H. reflexivity.
Qed.

Lemma measure_results q (st st' : sim) r :
  measure q st = Some (r, st') -> s_results st' = s_results st.
Proof.
  unfold measure, bind, get, ret, random.
  destruct (getProb1 q st) as [[p s1]|] eqn:E1; [|discriminate].
  apply getProb1_state in E1. subst s1.
  destruct (s_noise st) as [nm|]; cbn -[collapse];
    match goal with |- context [match collapse ?a ?b ?c ?d with _ => _ end] =>
      destruct (collapse a b c d) as [[[] s2]|] eqn:E2 end; try discriminate;
    intros H; inversion H; subst; apply collapse_results in E2; rewrite E2; reflexivity.
Qed.

(** C1 (corrected): executing RESET on q through [run] leaves the result
    cache unchanged (it is not set to the sampled outcome) and applies no
    noise: the step is exactly [measure(q)], then X on q if the outcome is 1,
    then [prune]. *)
Theorem C1_reset (cos sin : float -> float) (fuel : nat) (q : handle) (ps : list float)
    (c : option (handle * Z)) (b : option (list instr)) (st st' : sim) :
  run_op cos sin fuel (mkInstr "RESET" (QOne q) ps c b) st = Some (tt, st') ->
  s_results st' = s_results st /\
  exists r stm, measure (Some q) st = Some (r, stm) /\
    bind (if Z.eqb r 1 then applyGate cos sin "X" (Some q) [] else ret tt) (fun _ => prune) stm
    = Some (tt, st').
Proof.
  unfold run_op. cbn -[measure applyGate prune].
  unfold bind at 1 2, get. unfold dispatch. cbn -[measure applyGate prune].
  destruct (measure (Some q) st) as [[r stm]|] eqn:Em; [|discriminate].
  unfold bind, prune, ret.
  destruct ((if r =? 1 then applyGate cos sin "X" (Some q) [] else fun st => Some (tt, st)) stm)
    as [[[] s1]|] eqn:Ex; [|discriminate].
  rewrite Bool.andb_false_r. intros H. inversion H; subst st'. split.
  - rewrite prune_state_results. apply measure_results in Em. rewrite <- Em.
    destruct (r =? 1).
    + apply (applyGate_results _ _ _ _ _ _ _ Ex).
    + inversion Ex. reflexivity.
  - exists r, stm. split; [reflexivity|]. rewrite Ex. reflexivity.
Qed.

Lemma C1_reset_witness :
  exists st',
    run_op (fun x => x) (fun x => x) 0%nat (op1 "RESET" 0%nat)
      (Simulator [0%nat] None None (fun _ => 0.5%float)) = Some (tt, st') /\
    s_results st' = s_results (Simulator [0%nat] None None (fun _ => 0.5%float)) /\
    exists r stm,
      measure (Some 0%nat) (Simulator [0%nat] None None (fun _ => 0.5%float)) = Some (r, stm) /\
      bind (if Z.eqb r 1 then applyGate (fun x => x) (fun x => x) "X" (Some 0%nat) [] else ret tt)
           (fun _ => prune) stm = Some (tt, st').
Proof.
  destruct (run_op (fun x => x) (fun x => x) 0%nat (op1 "RESET" 0%nat)
              (Simulator [0%nat] None None (fun _ => 0.5%float))) as [[[] st']|] eqn:E.
  - exists st'. split; [reflexivity|]. exact (C1_reset _ _ 0%nat 0%nat [] None None _ _ E).
  - vm_compute in E. discriminate E.
Defined.

(** C1: RESET leaves no result: after [run([RESET(0)])] the cache has no
    entry for qubit 0, while the claim has it hold the sampled outcome. *)
Lemma C1_reset_no_result :
  option_map (fun p => getResult (snd p) 0%nat)
    (run (fun x => x) (fun x => x) 0%nat [op1 "RESET" 0%nat]
         (Simulator [0%nat] None None (fun _ => 0.5%float)))
  = Some None.
Proof. vm_compute. reflexivity. Qed.

(** ** Recorder *)

(** The callback loop of [exec] is [exec_all]. *)
Lemma exec_cb_all (cos sin : float -> float) (fuel : nat) (cb : list call) :
  forall s sub,
  (fix exec_cb (l : list call) (s : scope) (sub : list instr) : outcome :=
     match l with
     | [] => Ok s sub
     | c :: t => match exec cos sin fuel false c s sub with
                 | Ok s sub => exec_cb t s sub
                 | Err s => Err s
                 | Crash m => Crash m
                 end
     end) cb s sub = exec_all cos sin fuel false cb s sub.
Proof.
  induction cb as [|c t IH]; intros s sub; [reflexivity|].
  simpl. destruct (exec cos sin fuel false c s sub); [apply IH|reflexivity|reflexivity].
Qed.

(** C9 (corrected): a recorder call that throws a recorder error (an
    unallocated handle, a qubit controlling or swapped with itself) leaves
    the scope as it was, IR buffer included, except in the two cases the
    claim misses: [if]/[while] whose callback throws such an error propagate
    the callback's scope, and its nested [m] calls may have flushed and
    cleared the IR buffer. *)
Theorem C9_errors (cos sin : float -> float) (fuel : nat) (main : bool) (c : call)
    (s s' : scope) (own : list instr) :
  exec cos sin fuel main c s own = Err s' ->
  match c with
  | Cif q _ cb | Cwhile q _ cb =>
      s' = s \/ (valid s q = true /\ exec_all cos sin fuel false cb s [] = Err s')
  | _ => s' = s
  end.
Proof.
  destruct c; simpl; unfold g1, controlled, emit;
    repeat match goal with |- context [if ?b then _ else _] => destruct b end;
    try rewrite exec_cb_all; intros H;
    repeat match type of H with
      | context [match ?x with _ => _ end] => let E := fresh "E" in destruct x eqn:E
      end;
    try discriminate H; inversion H; subst;
    first [reflexivity | left; reflexivity | right; repeat split; assumption].
Qed.

Lemma C9_errors_witness :
  exec (fun x => x) (fun x => x) 0%nat true (Cswap 0%nat 0%nat) (scope0 []) [] = Err (scope0 []) /\
  scope0 [] = scope0 [].
Proof.
  assert (H : exec (fun x => x) (fun x => x) 0%nat true (Cswap 0%nat 0%nat) (scope0 []) [] = Err (scope0 []))
    by reflexivity.
  split; [exact H | exact (C9_errors _ _ 0%nat true (Cswap 0%nat 0%nat) _ _ [] H)].
Defined.

(** C9: an [if] whose callback measures (flushing the buffer) and then
    touches an unallocated qubit throws with the IR buffer emptied, not left
    as it was. *)
Lemma C9_if_flushes_then_throws :
  exists s', exec (fun x => x) (fun x => x) 0%nat true (Cif 0%nat 1 [Cm 0%nat; Cx 99%nat]) (scope0 [op1 "S" 0%nat]) [] = Err s' /\
    sc_circuit s' = [] /\ sc_circuit s' <> sc_circuit (scope0 [op1 "S" 0%nat]).
Proof.
  destruct (exec (fun x => x) (fun x => x) 0%nat true (Cif 0%nat 1 [Cm 0%nat; Cx 99%nat]) (scope0 [op1 "S" 0%nat]) []) as [s' own|s'|m] eqn:E.
  - vm_compute in E. discriminate E.
  - exists s'. split; [reflexivity|].
    vm_compute in E. injection E as <-. split; [reflexivity| discriminate].
  - vm_compute in E. discriminate E.
Qed.

(** A scatter loop whose body never fails does not fail. *)
Lemma scatter_loop_some (st : sim) (body : Z -> float -> float -> scatter -> option scatter) :
  (forall idx re im sc, exists sc', body idx re im sc = Some sc') ->
  exists sc, scatter_loop st body = Some sc.
Proof.
  intros Hb. unfold scatter_loop.
  generalize (mkScatter [] 0 (s_indicesAux st) (s_amplitudesAux st)).
  induction (zseq (s_activeCount st)) as [|i l IH]; intros sc0; simpl; [eauto|].
  destruct (Hb (s_indices st i) (re_at (s_amplitudes st) i) (im_at (s_amplitudes st) i) sc0)
    as [sc' ->].
  apply IH.
Qed.

(** C10: [ccx(q, q, q)] and [rzz(q, q, th)] on an allocated qubit do not
    throw and emit their instruction, while [cnot], [cz] and [swap] on
    [(q, q)] throw; the compiler passes the two instructions through and the
    simulator runs them. *)
Lemma C10_dup_ok (cos sin : float -> float) (fuel : nat) (q : handle) (th : float)
    (main : bool) (s : scope) (own : list instr) (st : sim) (b : Z) :
  valid s q = true ->
  bitOf st (Some q) = Some b ->
  s_noise st = None ->
  exec cos sin fuel main (Cccx q q q) s own
    = emit main s own (mkInstr "CCX" (QMany [q; q; q]) [] None None) /\
  exec cos sin fuel main (Crzz q q th) s own
    = emit main s own (mkInstr "RZZ" (QMany [q; q]) [th] None None) /\
  exec cos sin fuel main (Ccnot q q) s own = Err s /\
  exec cos sin fuel main (Ccz q q) s own = Err s /\
  exec cos sin fuel main (Cswap q q) s own = Err s /\
  Compiler.compile [mkInstr "CCX" (QMany [q; q; q]) [] None None]
    = Some [mkInstr "CCX" (QMany [q; q; q]) [] None None] /\
  Compiler.compile [mkInstr "RZZ" (QMany [q; q]) [th] None None]
    = Some [mkInstr "RZZ" (QMany [q; q]) [th] None None] /\
  (exists st', run cos sin fuel [mkInstr "CCX" (QMany [q; q; q]) [] None None] st = Some (tt, st')) /\
  (exists st', run cos sin fuel [mkInstr "RZZ" (QMany [q; q]) [th] None None] st = Some (tt, st')).
Proof.
  intros Hv Hb Hn.
  simpl. unfold controlled. rewrite Hv, Nat.eqb_refl.
  split; [reflexivity|]. split; [reflexivity|]. split; [reflexivity|].
  split; [reflexivity|]. split; [reflexivity|].
  split; [reflexivity|]. split; [reflexivity|].
  assert (G3 : exists st', apply3QubitGate cos sin "CCX" (Some q) (Some q) (Some q) [] st
                           = Some (tt, st')).
  { unfold apply3QubitGate. rewrite Hb.
    match goal with |- context [scatter_loop ?st ?body] =>
      destruct (scatter_loop_some st body) as [sc E] end.
    - intros. cbn. eexists. reflexivity.
    - rewrite E. eexists. reflexivity. }
  assert (G2 : exists st', apply2QubitGate cos sin "RZZ" (Some q) (Some q) [th] st
                           = Some (tt, st')).
  { unfold apply2QubitGate. rewrite Hb.
    match goal with |- context [scatter_loop ?st ?body] =>
      destruct (scatter_loop_some st body) as [sc E] end.
    - intros. cbn. eexists. reflexivity.
    - rewrite E. eexists. reflexivity. }
  destruct G3 as [st3 E3], G2 as [st2 E2].
  split; [exists st3 | exists st2]; cbn -[apply3QubitGate apply2QubitGate].
  - rewrite (bind_some _ _ st tt st3); [reflexivity|].
    rewrite (bind_some _ _ st st st eq_refl). cbv beta. rewrite Hn.
    rewrite (bind_some _ _ st true st3); [reflexivity|].
    rewrite (bind_some _ _ st tt st3 E3). reflexivity.
  - rewrite (bind_some _ _ st tt st2); [reflexivity|].
    rewrite (bind_some _ _ st st st eq_refl). cbv beta. rewrite Hn.
    rewrite (bind_some _ _ st true st2); [reflexivity|].
    rewrite (bind_some _ _ st tt st2 E2). reflexivity.
Qed.

Lemma C10_dup_ok_witness :
  valid (scope0 []) 0%nat = true /\
  exists st',
    run (fun x => x) (fun x => x) 0%nat [mkInstr "CCX" (QMany [0; 0; 0]%nat) [] None None]
      (Simulator [0%nat] None None (fun _ => 0.5%float)) = Some (tt, st').
Proof.
  split; [reflexivity|].
  destruct (C10_dup_ok (fun x => x) (fun x => x) 0%nat 0%nat 1%float true (scope0 []) []
              (Simulator [0%nat] None None (fun _ => 0.5%float)) 1 eq_refl eq_refl eq_refl)
    as (_ & _ & _ & _ & _ & _ & _ & H & _).
  exact H.
Defined.

(** ** Qubit manager *)

(** Removing [h] from the registry leaves no copy of it. *)
Lemma filter_not_allocated (reg : list handle) (h : handle) :
  existsb (Nat.eqb h) (filter (fun x => negb (Nat.eqb x h)) reg) = false.
Proof.
  induction reg as [|x t IH]; [reflexivity|].
  simpl. destruct (Nat.eqb x h) eqn:E; simpl; [exact IH|].
  rewrite Nat.eqb_sym, E. exact IH.
Qed.

(** C7: for an allocated handle [h] and any simulator whose [isZero(h)]
    answers [b], [release] throws iff [b] is false; when it throws the
    manager is unchanged (so [h] stays allocated) and the error is a
    [ReleaseError] for [h]; otherwise [h] is no longer allocated. *)
Theorem C7_release {Sm : Type} `{QubitManager.SimulatorLike Sm}
    (m : QubitManager.manager) (h : handle) (simulator : Sm) (b : bool) :
  QubitManager.isAllocated m h = true ->
  QubitManager.isZeroS h simulator = Some b ->
  (snd (QubitManager.release h simulator m) <> None <-> b = false) /\
  (b = false ->
   QubitManager.release h simulator m = (m, Some (QubitManager.ReleaseError h)) /\
   QubitManager.isAllocated (fst (QubitManager.release h simulator m)) h = true) /\
  (b = true ->
   snd (QubitManager.release h simulator m) = None /\
   QubitManager.isAllocated (fst (QubitManager.release h simulator m)) h = false).
Proof.
  intros Ha Hz. unfold QubitManager.release. rewrite Hz.
  destruct b; simpl.
  - split; [split; [intros C; exfalso; apply C; reflexivity | discriminate]|].
    split; [discriminate|]. intros _. split; [reflexivity|].
    unfold QubitManager.isAllocated. simpl. apply filter_not_allocated.
  - split; [split; [reflexivity | intros _; discriminate]|].
    split; [intros _; split; [reflexivity | exact Ha] | discriminate].
Qed.

Lemma C7_release_witness :
  QubitManager.isAllocated (QubitManager.mkManager 1 [0%nat]) 0%nat = true /\
  QubitManager.isZeroS 0%nat (Simulator [0%nat] None None (fun _ => 0.5%float)) = Some true /\
  QubitManager.isAllocated
    (fst (QubitManager.release 0%nat (Simulator [0%nat] None None (fun _ => 0.5%float))
            (QubitManager.mkManager 1 [0%nat]))) 0%nat = false.
Proof.
  assert (Ha : QubitManager.isAllocated (QubitManager.mkManager 1 [0%nat]) 0%nat = true)
    by reflexivity.
  assert (Hz : QubitManager.isZeroS 0%nat (Simulator [0%nat] None None (fun _ => 0.5%float))
               = Some true) by (vm_compute; reflexivity).
  split; [exact Ha|]. split; [exact Hz|].
  destruct (C7_release _ _ _ true Ha Hz) as (_ & _ & H3).
  exact (proj2 (H3 eq_refl)).
Defined.

(** ** Distinct basis indices *)

(** C8 (code bug): [CNOT(0, 0)] after [H(0), H(1), SWAP(0, 1)] leaves
    two active entries on basis index 2: the CNOT branch of
    [apply2QubitGate] passes [nextCount++] to [#accumulate] for every entry,
    so on a collision the reserved slot keeps a stale index from the
    auxiliary buffer. *)
Theorem C8_cnot_same_qubit_duplicates (cos sin : float -> float) :
  exists st,
    run cos sin 0%nat
      [op1 "H" 0%nat; op1 "H" 1%nat; opn "SWAP" [0; 1]%nat; opn "CNOT" [0; 0]%nat]
      (Simulator [0; 1]%nat None None (fun _ => 0.5%float)) = Some (tt, st) /\
    map (fun e => fst (fst e)) (active st) = [0; 2; 2; 3] /\
    ~ NoDup (map (fun e => fst (fst e)) (active st)).
Proof.
  destruct (run cos sin 0%nat
      [op1 "H" 0%nat; op1 "H" 1%nat; opn "SWAP" [0; 1]%nat; opn "CNOT" [0; 0]%nat]
      (Simulator [0; 1]%nat None None (fun _ => 0.5%float))) as [[[] st]|] eqn:E.
  - exists st. split; [reflexivity|].
    vm_compute in E. injection E as <-.
    split; [reflexivity|].
    intros Hd. apply NoDup_cons_iff in Hd as [_ Hd]. apply NoDup_cons_iff in Hd as [Hd _].
    apply Hd. left. reflexivity.
  - vm_compute in E. discriminate E.
Qed.

(** * Further properties of the code *)


Lemma count_some_app {A} (l1 l2 : list (option A)) :
  count_some (l1 ++ l2) = (count_some l1 + count_some l2)%nat.
Proof. induction l1 as [|[x|] t IH]; simpl; lia. Qed.

Lemma count_set_nth_some {A} (n : nat) (x y : A) (l : list (option A)) :
  nth n l None = Some y -> count_some (Optimizer.set_nth n (Some x) l) = count_some l.
Proof.
  revert n; induction l as [|[z|] t IH]; intros [|n] H; simpl in *; try discriminate;
    try rewrite (IH n H); reflexivity.
Qed.

Lemma count_set_nth_none {A} (n : nat) (l : list (option A)) :
  (count_some (Optimizer.set_nth n None l) <= count_some l)%nat.
Proof.
  revert n; induction l as [|[z|] t IH]; intros [|n]; simpl; try specialize (IH n); lia.
Qed.

Lemma nth_set_nth_same {A} (n : nat) (x : option A) (l : list (option A)) :
  nth n l None <> None -> nth n (Optimizer.set_nth n x l) None = x.
Proof.
  revert n; induction l as [|z t IH]; intros [|n] H; simpl in *; try (exfalso; apply H; reflexivity);
    auto.
Qed.

Lemma keep_length (l : list (option instr)) : (List.length (Optimizer.keep l) <= count_some l)%nat.
Proof.
  induction l as [|[o|] t IH]; simpl; [lia| |lia].
  destruct (Optimizer.isIdentity o); simpl; lia.
Qed.

Lemma step_count (acc : list (option instr) * Optimizer.wiremap) (op : instr) :
  (count_some (fst (Optimizer.step acc op)) <= S (count_some (fst acc)))%nat.
Proof.
  destruct acc as [opt wm]. unfold Optimizer.step. cbv beta iota. cbn [fst].
  destruct (Optimizer.isIdentity op); [simpl; lia|].
  assert (Hp : forall o w, (count_some (fst (Optimizer.push op o w)) = S (count_some o))%nat).
  { intros o w. unfold Optimizer.push. simpl. rewrite count_some_app. simpl. lia. }
  destruct (Optimizer.findCommutingPartner op wm opt) as [n|]; [|rewrite Hp; lia].
  destruct (nth n opt None) as [partner|] eqn:E; [|rewrite Hp; lia].
  destruct (mem_str (gate op) Optimizer.rotations).
  - unfold Optimizer.mergeGates. rewrite E. cbv zeta.
    match goal with |- context [Optimizer.set_nth n (Some ?p) opt] => set (p' := p) end.
    destruct (Optimizer.isIdentity p'); cbn [fst].
    + pose proof (count_set_nth_none n (Optimizer.set_nth n (Some p') opt)) as H.
      erewrite count_set_nth_some in H by exact E. lia.
    + erewrite count_set_nth_some by exact E. lia.
  - destruct (_ && _); [cbn [fst]; erewrite count_set_nth_some by exact E; lia|].
    destruct (_ && _); [cbn [fst]; erewrite count_set_nth_some by exact E; lia|].
    destruct (_ && _); [cbn [fst]; pose proof (count_set_nth_none n opt); lia|].
    rewrite Hp; lia.
Qed.

Lemma fold_step_count (l : list instr) acc :
  (count_some (fst (fold_left Optimizer.step l acc)) <= count_some (fst acc) + List.length l)%nat.
Proof.
  revert acc; induction l as [|op t IH]; intros acc; simpl; [lia|].
  specialize (IH (Optimizer.step acc op)). pose proof (step_count acc op). lia.
Qed.

(** X1: [prune] never makes the program longer: it only drops, merges or
    rewrites ops. *)
Theorem prune_length (l : list instr) : (List.length (Optimizer.prune l) <= List.length l)%nat.
Proof.
  unfold Optimizer.prune. pose proof (fold_step_count l ([], [])). simpl in H.
  pose proof (keep_length (fst (fold_left Optimizer.step l ([], [])))). lia.
Qed.

Lemma Forall_set_nth {A} (P : A -> Prop) (n : nat) (x : A) (l : list A) :
  Forall P l -> P x -> Forall P (Optimizer.set_nth n x l).
Proof.
  revert n; induction l as [|y t IH]; intros [|n] H Hx; simpl; auto;
    inversion H; subst; constructor; auto.
Qed.

Lemma Forall_nth_some (P : option instr -> Prop) (n : nat) (o : instr) l :
  Forall P l -> nth n l None = Some o -> P (Some o).
Proof.
  revert n; induction l as [|y t IH]; intros [|n] H E; simpl in E; try discriminate;
    inversion H; subst; auto.
  eapply IH; eauto.
Qed.

Lemma derived_S_Z g0 : derived g0 "S" = true -> derived g0 "Z" = true.
Proof.
  unfold derived. destruct (String.eqb_spec g0 "S") as [->|n1]; [reflexivity|].
  destruct (String.eqb_spec g0 "T") as [->|n2]; [reflexivity|].
  rewrite (String.eqb_sym "S" g0). apply String.eqb_neq in n1. rewrite n1. simpl.
  discriminate.
Qed.

Lemma derived_T_S g0 : derived g0 "T" = true -> derived g0 "S" = true.
Proof.
  unfold derived. destruct (String.eqb_spec g0 "T") as [->|n2]; [reflexivity|].
  rewrite (String.eqb_sym "T" g0). apply String.eqb_neq in n2. rewrite n2.
  rewrite andb_false_l, !orb_false_r. intros H. apply andb_prop in H as [_ H]. discriminate.
Qed.

Lemma step_slots (l : list instr) acc op :
  In op l -> Forall (slot_ok l) (fst acc) -> Forall (slot_ok l) (fst (Optimizer.step acc op)).
Proof.
  intros Hin HF. destruct acc as [opt wm]. unfold Optimizer.step. cbv beta iota. cbn [fst] in *.
  assert (Hp : forall w, Forall (slot_ok l) (fst (Optimizer.push op opt w))).
  { intros w. unfold Optimizer.push. cbn [fst]. apply Forall_app. split; [exact HF|].
    constructor; [|constructor]. exists op. repeat split; auto.
    unfold derived. rewrite String.eqb_refl. reflexivity. }
  destruct (Optimizer.isIdentity op); [exact HF|].
  destruct (Optimizer.findCommutingPartner op wm opt) as [n|]; [|apply Hp].
  destruct (nth n opt None) as [partner|] eqn:E; [|apply Hp].
  pose proof (Forall_nth_some _ n partner opt HF E) as [i (Hi & Hq & Hc & Hb & Hg)].
  destruct (mem_str (gate op) Optimizer.rotations).
  - unfold Optimizer.mergeGates. rewrite E. cbv zeta.
    match goal with |- context [Optimizer.set_nth n (Some ?p) opt] => set (p' := p) end.
    assert (Ok : Forall (slot_ok l) (Optimizer.set_nth n (Some p') opt)).
    { apply Forall_set_nth; [exact HF|]. exists i.
      subst p'. destruct (mem_str _ _); repeat split; auto. }
    destruct (Optimizer.isIdentity p'); cbn [fst]; [|exact Ok].
    apply Forall_set_nth; [exact Ok | exact I].
  - destruct (String.eqb (gate op) "S" && String.eqb (gate partner) "S") eqn:ES.
    { cbn [fst]. apply Forall_set_nth; [exact HF|]. exists i. repeat split; auto.
      apply andb_prop in ES as [_ ES]. apply String.eqb_eq in ES. rewrite ES in Hg.
      apply derived_S_Z, Hg. }
    destruct (String.eqb (gate op) "T" && String.eqb (gate partner) "T") eqn:ET.
    { cbn [fst]. apply Forall_set_nth; [exact HF|]. exists i. repeat split; auto.
      apply andb_prop in ET as [_ ET]. apply String.eqb_eq in ET. rewrite ET in Hg.
      apply derived_T_S, Hg. }
    destruct (String.eqb (gate op) (gate partner) && mem_str (gate op) Optimizer.selfInverses);
      [cbn [fst]; apply Forall_set_nth; [exact HF | exact I]|].
    apply Hp.
Qed.

Lemma fold_slots (l : list instr) (l' : list instr) acc :
  incl l' l -> Forall (slot_ok l) (fst acc) ->
  Forall (slot_ok l) (fst (fold_left Optimizer.step l' acc)).
Proof.
  revert acc; induction l' as [|op t IH]; intros acc Hi HF; simpl; [exact HF|].
  apply IH; [intros x Hx; apply Hi; right; exact Hx|].
  apply step_slots; [apply Hi; left; reflexivity | exact HF].
Qed.

Lemma keep_in (l : list (option instr)) (o : instr) :
  In o (Optimizer.keep l) -> In (Some o) l.
Proof.
  induction l as [|[x|] t IH]; simpl; auto.
  destruct (Optimizer.isIdentity x); simpl; [intros H; auto|intros [<-|H]; auto].
Qed.

(** X3: every op [prune] outputs comes from an input op with the same
    qubits, condition and body, and with the same gate or a phase rewrite of
    it (S to Z, T to S or Z). *)
Theorem prune_provenance (l : list instr) (o : instr) :
  In o (Optimizer.prune l) ->
  exists i, In i l /\ qubit o = qubit i /\ condition o = condition i /\ body o = body i /\
    (gate o = gate i \/ (gate i = "S" /\ gate o = "Z") \/
     (gate i = "T" /\ (gate o = "S" \/ gate o = "Z"))).
Proof.
  intros H. apply keep_in in H.
  pose proof (fold_slots l l ([], []) (fun x h => h) (Forall_nil _)) as HF.
  rewrite Forall_forall in HF. specialize (HF _ H) as [i (Hi & Hq & Hc & Hb & Hg)].
  exists i. repeat split; auto. unfold derived in Hg.
  destruct (String.eqb_spec (gate o) (gate i)) as [E|]; [left; exact E|]. right.
  destruct (String.eqb_spec (gate i) "S"), (String.eqb_spec (gate o) "Z"),
           (String.eqb_spec (gate i) "T"), (String.eqb_spec (gate o) "S");
    simpl in Hg; try discriminate; auto.
Qed.

(** No partner search for an op that does not name exactly one qubit. *)
Lemma findCommutingPartner_multi (op : instr) hs wm opt :
  qubit op = QMany hs -> List.length hs <> 1%nat ->
  Optimizer.findCommutingPartner op wm opt = None.
Proof.
  intros Hq Hl. unfold Optimizer.findCommutingPartner. rewrite Hq. simpl.
  destruct hs as [|a [|b t]]; simpl in *; [reflexivity| lia | reflexivity].
Qed.

Lemma fold_multi (l : list instr) opt wm :
  Forall (fun op => exists hs, qubit op = QMany hs /\ List.length hs <> 1%nat) l ->
  fst (fold_left Optimizer.step l (opt, wm))
  = (opt ++ map Some (filter (fun op => negb (Optimizer.isIdentity op)) l))%list.
Proof.
  revert opt wm; induction l as [|op t IH]; intros opt wm HF; cbn [fold_left];
    [simpl; rewrite app_nil_r; reflexivity|].
  inversion HF as [|? ? [hs [Hq Hl]] HF']; subst.
  unfold Optimizer.step at 2. cbv beta iota. cbn [filter].
  destruct (Optimizer.isIdentity op); cbn [negb].
  - apply IH, HF'.
  - rewrite (findCommutingPartner_multi op hs wm opt Hq Hl). unfold Optimizer.push.
    rewrite IH by exact HF'. rewrite <- app_assoc. reflexivity.
Qed.

Lemma keep_map_some (l : list instr) :
  Optimizer.keep (map Some l) = filter (fun op => negb (Optimizer.isIdentity op)) l.
Proof. induction l as [|op t IH]; simpl; [reflexivity|]. destruct (Optimizer.isIdentity op); simpl; congruence. Qed.

(** X4: on ops that do not name exactly one qubit, [prune] only drops
    identities: it never cancels or merges them, so CNOT CNOT stays. *)
Theorem prune_multi_qubit (l : list instr) :
  Forall (fun op => exists hs, qubit op = QMany hs /\ List.length hs <> 1%nat) l ->
  Optimizer.prune l = filter (fun op => negb (Optimizer.isIdentity op)) l.
Proof.
  intros HF. unfold Optimizer.prune. rewrite fold_multi by exact HF. simpl.
  rewrite keep_map_some. clear HF. induction l as [|op t IH]; simpl; [reflexivity|].
  destruct (Optimizer.isIdentity op) eqn:E; simpl; [exact IH|]. rewrite E. simpl. f_equal. exact IH.
Qed.

(** X5: two equal self-inverse gates (H, X, Y, Z) on one qubit cancel,
    whatever their params, conditions and bodies. *)
Theorem prune_self_inverse_pair (g : string) (q : handle) (ps1 ps2 : list float)
    (c1 c2 : option (handle * Z)) (b1 b2 : option (list instr)) :
  In g ["H"; "X"; "Y"; "Z"] ->
  Optimizer.prune [mkInstr g (QOne q) ps1 c1 b1; mkInstr g (QOne q) ps2 c2 b2] = [].
Proof.
  intros Hg.
  assert (Hid : forall ps c b, Optimizer.isIdentity (mkInstr g (QOne q) ps c b) = false).
  { intros ps c b. destruct Hg as [<-|[<-|[<-|[<-|[]]]]]; destruct ps; reflexivity. }
  unfold Optimizer.prune. simpl.
  unfold Optimizer.step. rewrite Hid. simpl. rewrite Hid.
  unfold Optimizer.findCommutingPartner; simpl. rewrite Nat.eqb_refl. simpl.
  rewrite String.eqb_refl, Nat.eqb_refl. simpl.
  destruct Hg as [<-|[<-|[<-|[<-|[]]]]]; reflexivity.
Qed.

(** X6: two equal rotations on one qubit merge into one of angle [(a + b) %
    2 pi] with the first op's condition and body; it is dropped if it is an
    identity. *)
Theorem prune_rotation_pair (g : string) (q : handle) (a b : float)
    (c1 c2 : option (handle * Z)) (b1 b2 : option (list instr)) :
  In g ["RX"; "RY"; "RZ"] ->
  Optimizer.isIdentity (mkInstr g (QOne q) [a] c1 b1) = false ->
  Optimizer.isIdentity (mkInstr g (QOne q) [b] c2 b2) = false ->
  let r := mkInstr g (QOne q) [JS.fmod (a + b)%float Optimizer.TWO_PI] c1 b1 in
  Optimizer.prune [mkInstr g (QOne q) [a] c1 b1; mkInstr g (QOne q) [b] c2 b2]
  = if Optimizer.isIdentity r then [] else [r].
Proof.
  intros Hg H1 H2 r.
  unfold Optimizer.prune. simpl.
  unfold Optimizer.step. rewrite H1. simpl. rewrite H2.
  unfold Optimizer.findCommutingPartner; simpl. rewrite Nat.eqb_refl. simpl.
  rewrite String.eqb_refl, Nat.eqb_refl. simpl.
  assert (Hr : ((g =? "RX") || ((g =? "RY") || ((g =? "RZ") || false)))%string = true)
    by (destruct Hg as [<-|[<-|[<-|[]]]]; reflexivity).
  rewrite Hr. unfold Optimizer.mergeGates. simpl. rewrite Hr.
  change (set_params [JS.fmod (param 0 [a] + param 0 [b])%float Optimizer.TWO_PI]
            (mkInstr g (QOne q) [a] c1 b1)) with r. destruct (Optimizer.isIdentity r) eqn:E; simpl; [reflexivity|]. rewrite E. reflexivity.
Qed.

(** ** Transpiler *)

Lemma decompose_native (op : instr) (d : list instr) :
  Transpiler.decompose op = Some d -> Forall (fun o => ~ In (gate o) nonnative) d.
Proof.
  unfold Transpiler.decompose.
  assert (U : forall q ps, ~ In (gate (Transpiler.u3 q ps)) nonnative)
    by (intros q ps; simpl; intuition discriminate).
  assert (C : forall a b, ~ In (gate (Transpiler.cnot a b)) nonnative)
    by (intros a b; simpl; intuition discriminate).
  repeat match goal with
  | |- context [if String.eqb (gate op) ?s then _ else _] =>
      destruct (String.eqb_spec (gate op) s)
  end; intros H;
  repeat match type of H with
  | context [match ?x with _ => _ end] => destruct x
  end; try discriminate H; injection H as <-; repeat constructor; auto.
  simpl. intuition congruence.
Qed.

(** X8: no op that [transpile] outputs has a gate of its table (H, X, Y, Z,
    RX, RY, RZ, SWAP, CZ). *)
Theorem transpile_native (l l' : list instr) :
  Transpiler.transpile l = Some l' -> Forall (fun o => ~ In (gate o) nonnative) l'.
Proof.
  revert l'; induction l as [|op t IH]; intros l' H; simpl in H.
  - injection H as <-. constructor.
  - destruct (Transpiler.decompose op) as [d|] eqn:Ed, (Transpiler.transpile t) as [r|];
      try discriminate. injection H as <-. apply Forall_app. split; [|apply IH; reflexivity].
    apply (decompose_native op d Ed).
Qed.

(** ** Simulator *)

Lemma measure_binary (q : option handle) (st st' : sim) (r : Z) :
  measure q st = Some (r, st') -> r = 0 \/ r = 1.
Proof.
  unfold measure, bind, get, ret, random.
  repeat match goal with |- context [match ?x with _ => _ end] => destruct x end;
    intros H; try discriminate H; injection H as <- _; auto.
Qed.

(** X11: an executed MEASURE records 0 or 1 for its qubit and leaves the
    results of all other qubits as they were. *)
Theorem run_measure_records (cos sin : float -> float) (fuel : nat) (h : handle)
    (ps : list float) (c : option (handle * Z)) (b : option (list instr)) (st st' : sim) :
  run_op cos sin fuel (mkInstr "MEASURE" (QOne h) ps c b) st = Some (tt, st') ->
  (getResult st' h = Some 0 \/ getResult st' h = Some 1) /\
  (forall k, k <> h -> getResult st' k = getResult st k).
Proof.
  unfold run_op. cbn -[measure applyGate prune].
  unfold bind at 1 2, get. unfold dispatch. cbn -[measure applyGate prune].
  destruct (measure (Some h) st) as [[r stm]|] eqn:Em; [|discriminate].
  cbn -[measure prune]. unfold bind at 1, prune, ret. rewrite Bool.andb_false_r. unfold getResult.
  intros H. inversion H; subst st'. clear H.
  rewrite prune_state_results. cbn [s_results with_results].
  rewrite Nat.eqb_refl. split.
  - destruct (measure_binary _ _ _ _ Em) as [-> | ->]; auto.
  - intros k Hk. apply Nat.eqb_neq in Hk. rewrite Hk.
    apply measure_results in Em. rewrite Em. reflexivity.
Qed.

Lemma map_get_notin (qs : list handle) (h : handle) (i : Z) (acc : option Z) :
  ~ In h qs -> map_get qs h i acc = acc.
Proof.
  revert i acc; induction qs as [|x t IH]; intros i acc Hn; simpl; [reflexivity|].
  destruct (Nat.eqb_spec x h) as [->|]; [exfalso; apply Hn; left; reflexivity|].
  apply IH. intros H; apply Hn; right; exact H.
Qed.

Lemma map_get_in (qs : list handle) (h : handle) (i : Z) (acc : option Z) :
  In h qs -> exists p, map_get qs h i acc = Some p.
Proof.
  revert i acc; induction qs as [|x t IH]; intros i acc Hn; [destruct Hn|]. simpl.
  destruct (in_dec Nat.eq_dec h t) as [Ht|Ht]; [apply IH, Ht|].
  destruct Hn as [->|Hn]; [|contradiction].
  rewrite Nat.eqb_refl, map_get_notin by exact Ht. eauto.
Qed.

(** X12: any single-qubit instruction on a qubit the simulator was not built
    with throws, and so does [isZero]: [BigInt(undefined)] is a TypeError. *)
Theorem unknown_qubit_throws (cos sin : float -> float) (fuel : nat) (g : string) (h : handle)
    (ps : list float) (c : option (handle * Z)) (b : option (list instr)) (st : sim) :
  ~ In h (s_qubits st) -> g <> "IF" -> g <> "WHILE" ->
  run_op cos sin fuel (mkInstr g (QOne h) ps c b) st = None /\ isZero h st = None.
Proof.
  intros Hn Hi Hw.
  assert (Hb : bitOf st (Some h) = None) by (unfold bitOf; rewrite map_get_notin; auto).
  assert (Hm : measure (Some h) st = None)
    by (unfold measure, bind, getProb1; rewrite Hb; reflexivity).
  split.
  - unfold run_op. apply String.eqb_neq in Hi, Hw. rewrite Hi, Hw.
    unfold bind at 1, get. unfold bind at 1. unfold dispatch. cbn [qubit params gate single].
    destruct (String.eqb g "RESET").
    + unfold bind at 1. rewrite Hm. reflexivity.
    + destruct (String.eqb g "MEASURE").
      * unfold bind at 1. rewrite Hm. reflexivity.
      * unfold bind at 1, applyGate. rewrite Hb. reflexivity.
  - unfold isZero, bind, getProb1. rewrite Hb. reflexivity.
Qed.

Lemma unknown_qubit_throws_witness :
  ~ In 1%nat (s_qubits (Simulator [0%nat] None None (fun _ => 0.5%float))) /\
  run_op (fun x => x) (fun x => x) 0%nat (op1 "H" 1%nat) (Simulator [0%nat] None None (fun _ => 0.5%float))
  = None.
Proof.
  assert (Hn : ~ In 1%nat (s_qubits (Simulator [0%nat] None None (fun _ => 0.5%float))))
    by (simpl; intuition discriminate).
  split; [exact Hn|].
  apply (unknown_qubit_throws (fun x => x) (fun x => x) 0%nat "H" 1%nat [] None None _ Hn);
    discriminate.
Defined.

Lemma fresh_getProb1 (qubits : list handle) (noise : option noiseModel) (eps : option float)
    (rng : nat -> float) (q : handle) :
  In q qubits ->
  getProb1 (Some q) (Simulator qubits noise eps rng) = Some (0%float, Simulator qubits noise eps rng).
Proof.
  intros Hin. destruct (map_get_in qubits q 0 None Hin) as [p Hp].
  unfold getProb1, bitOf. cbn [s_qubits Simulator]. rewrite Hp. reflexivity.
Qed.

(** X13: a fresh simulator without an epsilon override reads every one of
    its qubits as zero, and [isZero] does not change its state. *)
Theorem fresh_isZero (qubits : list handle) (noise : option noiseModel) (rng : nat -> float)
    (q : handle) :
  In q qubits ->
  isZero q (Simulator qubits noise None rng) = Some (true, Simulator qubits noise None rng).
Proof.
  intros Hin. unfold isZero, bind, get, ret. rewrite fresh_getProb1 by exact Hin.
  reflexivity.
Qed.

Lemma fresh_isZero_witness :
  In 0%nat [0%nat; 1%nat] /\
  isZero 0%nat (Simulator [0%nat; 1%nat] None None (fun _ => 0.5%float))
  = Some (true, Simulator [0%nat; 1%nat] None None (fun _ => 0.5%float)).
Proof.
  assert (Hin : In 0%nat [0%nat; 1%nat]) by (left; reflexivity).
  split; [exact Hin | exact (fresh_isZero _ None _ 0%nat Hin)].
Defined.

(** X14: without noise, measuring any qubit of a fresh simulator gives 0,
    for every draw of [Math.random()] in [0, 1). *)
Theorem fresh_measure_zero (qubits : list handle) (eps : option float) (rng : nat -> float)
    (q : handle) :
  random_range rng -> In q qubits ->
  option_map fst (measure (Some q) (Simulator qubits None eps rng)) = Some 0.
Proof.
  intros Hr Hin. destruct (map_get_in qubits q 0 None Hin) as [p Hp].
  unfold measure, bind, get, ret, random. rewrite fresh_getProb1 by exact Hin.
  cbn [s_noise Simulator s_rng s_draws].
  rewrite (leb0_not_ltb0 _ (proj1 (Hr 0%nat))).
  unfold collapse, bitOf. cbn [s_qubits with_draws Simulator]. rewrite Hp.
  destruct (fold_left _ _ _) as [[ix am] w]. reflexivity.
Qed.

Lemma fresh_measure_zero_witness :
  random_range (fun _ => 0.5%float) /\ In 0%nat [0%nat] /\
  option_map fst (measure (Some 0%nat) (Simulator [0%nat] None None (fun _ => 0.5%float))) = Some 0.
Proof.
  assert (Hr : random_range (fun _ => 0.5%float)) by (intros k; split; reflexivity).
  assert (Hin : In 0%nat [0%nat]) by (left; reflexivity).
  split; [exact Hr|]. split; [exact Hin|]. exact (fresh_measure_zero [0%nat] None _ 0%nat Hr Hin).
Defined.
Lemma cm_get_miss (b : Z) : (0 =? b) = false -> cm_get b [(0, 0)] = None.
Proof. intros H. unfold cm_get. cbn [find fst]. rewrite H. reflexivity. Qed.

Lemma map_get_pos (qs : list handle) (h : handle) (i : Z) (acc : option Z) (p : Z) :
  0 <= i -> (forall x, acc = Some x -> 0 <= x) -> map_get qs h i acc = Some p -> 0 <= p.
Proof.
  revert i acc; induction qs as [|x t IH]; intros i acc Hi Ha H; simpl in H; [exact (Ha p H)|].
  apply (IH (i + 1) (if Nat.eqb x h then Some i else acc)); [lia| |exact H].
  intros y Hy. destruct (Nat.eqb x h); [injection Hy as <-; lia | exact (Ha y Hy)].
Qed.

Lemma bitOf_pow (st : sim) (q : option handle) (b : Z) :
  bitOf st q = Some b -> exists p, 0 <= p /\ b = 2 ^ p.
Proof.
  unfold bitOf. destruct q as [h|]; [|discriminate].
  destruct (map_get (s_qubits st) h 0 None) as [p|] eqn:E; [|discriminate].
  intros H; injection H as <-. exists p.
  assert (Hp : 0 <= p) by (apply (map_get_pos _ _ _ _ _ (Z.le_refl 0) (fun x (H : None = Some x) => ltac:(discriminate H)) E)).
  split; [exact Hp|]. rewrite Z.shiftl_1_l. reflexivity.
Qed.

Lemma applyGate_X_fresh (cos sin : float -> float) (qubits : list handle) (rng : nat -> float)
    (q : handle) (b : Z) :
  bitOf (Simulator qubits None None rng) (Some q) = Some b -> (0 =? b) = false ->
  exists st1, applyGate cos sin "X" (Some q) [] (Simulator qubits None None rng) = Some (tt, st1)
   /\ s_activeCount st1 = 1 /\ s_indices st1 0 = (b mod 2^64) mod 2^64 /\
   s_amplitudes st1 0 = 1%float /\ s_amplitudes st1 1 = 0%float /\ s_qubits st1 = qubits /\
   s_noise st1 = None /\ s_rng st1 = rng /\ s_draws st1 = 0%nat /\
   s_results st1 = (fun _ => None).
Proof.
  intros Hb Hb0. unfold applyGate. rewrite Hb.
  unfold scatter_loop.
  change (zseq (s_activeCount (ensureCapacity (s_activeCount (Simulator qubits None None rng) * 2)
                                 (Simulator qubits None None rng)))) with [0].
  cbn [fold_left]. cbn -[finish].
  rewrite (cm_get_miss b Hb0). cbn -[finish].
  eexists; split; [reflexivity|].
  repeat split; vm_compute; reflexivity.
Qed.

Lemma measure_one_entry (q : handle) (b : Z) (st : sim) :
  s_activeCount st = 1 -> s_noise st = None -> bitOf st (Some q) = Some b ->
  s_amplitudes st 0 = 1%float -> s_amplitudes st 1 = 0%float -> random_range (s_rng st) ->
  exists stm, measure (Some q) st = Some (if testb (s_indices st 0) b then 1 else 0, stm).
Proof.
  intros Hc Hn Hb A0 A1 Hr.
  unfold measure, bind, get, ret, random, getProb1. rewrite Hb, Hn.
  replace (zseq (s_activeCount st)) with [0] by (rewrite Hc; reflexivity).
  cbn [fold_left]. unfold re_at, im_at. change (0 * 2) with 0. change (0 * 2 + 1) with 1.
  change (0 + 1) with 1. rewrite A0, A1.
  unfold collapse. cbn [with_draws s_qubits]. 
  assert (Hb' : bitOf (with_draws st (S (s_draws st))) (Some q) = Some b) by exact Hb.
  rewrite Hb'.
  destruct (testb (s_indices st 0) b).
  - change (0 + (sq 1 + sq 0))%float with 1%float. rewrite (proj2 (Hr (s_draws st))).
    destruct (fold_left _ _ _) as [[ix am] w]. eexists; reflexivity.
  - rewrite (leb0_not_ltb0 _ (proj1 (Hr (s_draws st)))).
    destruct (fold_left _ _ _) as [[ix am] w]. eexists; reflexivity.
Qed.

Lemma run_op_measure_some (cos sin : float -> float) (fuel : nat) (h : handle) (st stm : sim) (r : Z) :
  measure (Some h) st = Some (r, stm) ->
  exists st', run_op cos sin fuel (op1 "MEASURE" h) st = Some (tt, st') /\ getResult st' h = Some r.
Proof.
  intros Em.
  unfold run_op, op1. cbn -[measure applyGate prune].
  unfold bind at 1 2, get. unfold dispatch. cbn -[measure applyGate prune].
  rewrite Em.
  cbn -[measure prune]. unfold bind at 1, prune, ret. rewrite Bool.andb_false_r.
  eexists; split; [reflexivity|].
  unfold getResult. rewrite prune_state_results. cbn [s_results with_results].
  rewrite Nat.eqb_refl. reflexivity.
Qed.

(** X15: on a fresh noiseless simulator, X then MEASURE on a qubit records 1
    when its bit [1n << position] is below 2^64 and 0 otherwise: the 64-bit
    index array drops the flip of a qubit at position 64 or above. *)
Theorem X_measure_fresh (cos sin : float -> float) (fuel : nat) (qubits : list handle)
    (rng : nat -> float) (q : handle) (b : Z) :
  random_range rng -> bitOf (Simulator qubits None None rng) (Some q) = Some b ->
  option_map (fun r => getResult (snd r) q)
    (run cos sin fuel [op1 "X" q; op1 "MEASURE" q] (Simulator qubits None None rng))
  = Some (Some (if b <? 2 ^ 64 then 1 else 0)).
Proof.
  intros Hr Hb.
  destruct (bitOf_pow _ _ _ Hb) as [p [Hp ->]].
  assert (Hb0 : (0 =? 2 ^ p) = false) by (apply Z.eqb_neq; pose proof (Z.pow_pos_nonneg 2 p); lia).
  destruct (applyGate_X_fresh cos sin qubits rng q _ Hb Hb0)
    as [st1 (E1 & C1 & I1 & A0 & A1 & Q1 & N1 & R1 & D1 & S1)].
  assert (Hb1 : bitOf st1 (Some q) = Some (2 ^ p)) by (unfold bitOf in *; rewrite Q1; exact Hb).
  assert (Hr1 : random_range (s_rng st1)) by (rewrite R1; exact Hr).
  destruct (measure_one_entry q _ st1 C1 N1 Hb1 A0 A1 Hr1) as [stm Em].
  destruct (run_op_measure_some cos sin fuel q _ _ _ Em) as [st2 [E2 G2]].
  assert (Ex : run_op cos sin fuel (op1 "X" q) (Simulator qubits None None rng) = Some (tt, st1)).
  { unfold run_op, op1. cbn -[applyGate]. unfold bind. rewrite E1. reflexivity. }
  cbn [run]. rewrite (bind_some _ _ _ _ _ Ex). rewrite (bind_some _ _ _ _ _ E2).
  cbn. rewrite G2. f_equal. f_equal. rewrite I1.
  change 18446744073709551616 with (2 ^ 64). unfold testb.
  destruct (Z.ltb_spec (2 ^ p) (2 ^ 64)) as [Hlt|Hge].
  - rewrite (Z.mod_small (2 ^ p) (2 ^ 64)) by (pose proof (Z.pow_pos_nonneg 2 p); lia).
    rewrite (Z.mod_small (2 ^ p) (2 ^ 64)) by (pose proof (Z.pow_pos_nonneg 2 p); lia).
    rewrite Z.land_diag, Z.eqb_sym, Hb0. reflexivity.
  - assert (H64 : 64 <= p).
    { destruct (Z.le_gt_cases 64 p) as [H|H]; [exact H|].
      pose proof (Z.pow_lt_mono_r 2 p 64 ltac:(lia) ltac:(lia) H); lia. }
    replace (2 ^ p) with (2 ^ (p - 64) * 2 ^ 64) at 1
      by (rewrite <- Z.pow_add_r by lia; f_equal; lia).
    rewrite Z.mod_mul by (cbv; discriminate). reflexivity.
Qed.

Lemma existsb_app_nat (l1 l2 : list handle) (h : handle) :
  existsb (Nat.eqb h) (l1 ++ l2) = existsb (Nat.eqb h) l1 || existsb (Nat.eqb h) l2.
Proof. apply existsb_app. Qed.

(** X16: [allocate] returns a handle that was not allocated, is allocated
    afterwards, leaves every other handle as it was, and keeps the registry
    below [next]. *)
Theorem allocate_fresh (m : QubitManager.manager) :
  manager_wf m ->
  let '(id, m') := QubitManager.allocate m in
  QubitManager.isAllocated m id = false /\ QubitManager.isAllocated m' id = true /\
  (forall k, k <> id -> QubitManager.isAllocated m' k = QubitManager.isAllocated m k) /\
  manager_wf m'.
Proof.
  intros Hwf. unfold QubitManager.allocate, QubitManager.isAllocated, manager_wf in *.
  cbn [QubitManager.registry QubitManager.next].
  split; [|split; [|split]].
  - apply Bool.not_true_iff_false. intros H. apply existsb_exists in H as [x [Hx E]].
    apply Nat.eqb_eq in E; subst x. rewrite Forall_forall in Hwf. specialize (Hwf _ Hx). lia.
  - rewrite existsb_app; cbn. rewrite Nat.eqb_refl. apply Bool.orb_true_r.
  - intros k Hk. rewrite existsb_app. cbn. apply Nat.eqb_neq in Hk. rewrite Hk. cbn.
    apply Bool.orb_false_r.
  - apply Forall_app; split.
    + eapply Forall_impl; [|exact Hwf]. intros h H; cbn in H; lia.
    + constructor; [lia|constructor].
Qed.

Lemma release_keeps_others {Sm : Type} `{QubitManager.SimulatorLike Sm}
    (m : QubitManager.manager) (id k : handle) (simulator : Sm) :
  k <> id ->
  QubitManager.isAllocated (fst (QubitManager.release id simulator m)) k =
  QubitManager.isAllocated m k.
Proof.
  intros Hk. unfold QubitManager.release.
  destruct (QubitManager.isZeroS id simulator) as [[|]|]; try reflexivity.
  unfold QubitManager.isAllocated; cbn. induction (QubitManager.registry m) as [|x t IH]; [reflexivity|].
  cbn. destruct (Nat.eqb x id) eqn:E; cbn.
  - apply Nat.eqb_eq in E; subst x. apply Nat.eqb_neq in Hk. rewrite Hk. exact IH.
  - rewrite IH. reflexivity.
Qed.

Section Rec.
Variables (cos sin : float -> float) (fuel : nat).

Lemma flush_manager (mq : option handle) (s : scope) (r : option Z) (s' : scope) :
  flush cos sin fuel mq s = Some (r, s') -> sc_manager s' = sc_manager s.
Proof.
  unfold flush. destruct (Compiler.compile (sc_circuit s)); [|discriminate].
  destruct (run cos sin fuel l (sc_sim s)) as [[u st]|]; [|discriminate].
  intros E; injection E as _ <-. reflexivity.
Qed.

Lemma exec_manager : forall (c : call) (main : bool) (s : scope) (own : list instr),
  omanager (exec cos sin fuel main c s own) = sc_manager s.
Proof.
  fix IH 1. intros c main s own.
  destruct c; cbn [exec];
  try (unfold g1, controlled, emit;
       repeat match goal with |- context [if ?b then _ else _] => destruct b end; reflexivity).
  - destruct (valid s q); [|reflexivity]. rewrite exec_cb_all.
    assert (L : forall s sub, omanager (exec_all cos sin fuel false cb s sub) = sc_manager s).
    { clear q v. revert cb. fix IHl 1. intros [|c t] s0 sub; [reflexivity|]. cbn [exec_all].
      pose proof (IH c false s0 sub) as Hc.
      destruct (exec cos sin fuel false c s0 sub) as [s1 sub1|s1|m1]; cbn in Hc |- *;
        [rewrite (IHl t s1 sub1); exact Hc|exact Hc|exact Hc]. }
    specialize (L s []).
    destruct (exec_all cos sin fuel false cb s []) as [s1 sub1|s1|m1]; cbn in L |- *;
      [unfold emit; destruct main; exact L|exact L|exact L].
  - destruct (valid s q); [|reflexivity]. rewrite exec_cb_all.
    assert (L : forall s sub, omanager (exec_all cos sin fuel false cb s sub) = sc_manager s).
    { clear q v. revert cb. fix IHl 1. intros [|c t] s0 sub; [reflexivity|]. cbn [exec_all].
      pose proof (IH c false s0 sub) as Hc.
      destruct (exec cos sin fuel false c s0 sub) as [s1 sub1|s1|m1]; cbn in Hc |- *;
        [rewrite (IHl t s1 sub1); exact Hc|exact Hc|exact Hc]. }
    specialize (L s []).
    destruct (exec_all cos sin fuel false cb s []) as [s1 sub1|s1|m1]; cbn in L |- *;
      [unfold emit; destruct main; exact L|exact L|exact L].
  - destruct (valid s q); [|reflexivity].
    unfold emit. destruct main.
    + destruct (flush cos sin fuel (Some q) _) as [[r s2]|] eqn:E; [|reflexivity].
      cbn. apply flush_manager in E. exact E.
    + destruct (flush cos sin fuel (Some q) s) as [[r s2]|] eqn:E; [|reflexivity].
      cbn. apply flush_manager in E. exact E.
Qed.

Lemma exec_all_keeps_manager (main : bool) (l : list call) (s : scope) (own : list instr) :
  omanager (exec_all cos sin fuel main l s own) = sc_manager s.
Proof.
  revert s own; induction l as [|c t IH]; intros s own; [reflexivity|]. cbn [exec_all].
  pose proof (exec_manager c main s own) as Hc.
  destruct (exec cos sin fuel main c s own) as [s1 o1|s1|m1]; cbn in Hc |- *;
    [rewrite IH; exact Hc|exact Hc|exact Hc].
Qed.

Lemma block_effect_app (s : scope) (sub d : list instr) (o : outcome) :
  block_effect s (sub ++ d)%list o -> block_effect s sub o.
Proof.
  destruct o as [s' own'|s'|m]; cbn; [|auto|auto].
  intros [-> [d' ->]]. split; [reflexivity|]. exists (d ++ d')%list. symmetry. apply app_assoc.
Qed.

Lemma exec_block : forall (c : call) (s : scope) (own : list instr),
  no_measure c = true -> block_effect s own (exec cos sin fuel false c s own).
Proof.
  fix IH 1. intros c s own Hc.
  destruct c; cbn [exec];
  try (unfold g1, controlled, emit;
       repeat match goal with |- context [if ?b then _ else _] => destruct b end;
       cbn; first [reflexivity | split; [reflexivity | eexists; reflexivity]]).
  - destruct (valid s q); [|reflexivity]. rewrite exec_cb_all.
    assert (L : forall s sub, forallb no_measure cb = true ->
                block_effect s sub (exec_all cos sin fuel false cb s sub)).
    { clear q v Hc. revert cb. fix IHl 1. intros [|c t] s0 sub Hl.
      { cbn. split; [reflexivity|]. exists []. symmetry. apply app_nil_r. }
      cbn [exec_all]. cbn [forallb] in Hl. apply andb_prop in Hl as [H1 H2].
      pose proof (IH c s0 sub H1) as E.
      destruct (exec cos sin fuel false c s0 sub) as [s1 sub1|s1|m1]; cbn in E |- *;
        [|exact E|destruct E].
      destruct E as [-> [d1 ->]]. exact (block_effect_app _ _ _ _ (IHl t s0 _ H2)). }
    specialize (L s [] Hc).
    destruct (exec_all cos sin fuel false cb s []) as [s1 sub1|s1|m1]; cbn in L |- *;
      [destruct L as [-> _]; split; [reflexivity|eexists; reflexivity]|exact L|destruct L].
  - destruct (valid s q); [|reflexivity]. rewrite exec_cb_all.
    assert (L : forall s sub, forallb no_measure cb = true ->
                block_effect s sub (exec_all cos sin fuel false cb s sub)).
    { clear q v Hc. revert cb. fix IHl 1. intros [|c t] s0 sub Hl.
      { cbn. split; [reflexivity|]. exists []. symmetry. apply app_nil_r. }
      cbn [exec_all]. cbn [forallb] in Hl. apply andb_prop in Hl as [H1 H2].
      pose proof (IH c s0 sub H1) as E.
      destruct (exec cos sin fuel false c s0 sub) as [s1 sub1|s1|m1]; cbn in E |- *;
        [|exact E|destruct E].
      destruct E as [-> [d1 ->]]. exact (block_effect_app _ _ _ _ (IHl t s0 _ H2)). }
    specialize (L s [] Hc).
    destruct (exec_all cos sin fuel false cb s []) as [s1 sub1|s1|m1]; cbn in L |- *;
      [destruct L as [-> _]; split; [reflexivity|eexists; reflexivity]|exact L|destruct L].
  - discriminate Hc.
Qed.

Lemma block_scope (l : list call) (s : scope) (own : list instr) :
  forallb no_measure l = true -> block_effect s own (exec_all cos sin fuel false l s own).
Proof.
  revert s own; induction l as [|c t IH]; intros s own Hl.
  { cbn. split; [reflexivity|]. exists []. symmetry. apply app_nil_r. }
  cbn [exec_all]. cbn [forallb] in Hl. apply andb_prop in Hl as [H1 H2].
  pose proof (exec_block c s own H1) as E.
  destruct (exec cos sin fuel false c s own) as [s1 o1|s1|m1]; cbn in E |- *;
    [|exact E|destruct E].
  destruct E as [-> [d1 ->]]. exact (block_effect_app _ _ _ _ (IH s _ H2)).
Qed.

Lemma extends_refl (s : scope) : extends s s.
Proof. repeat split. exists []. rewrite app_nil_r. reflexivity. Qed.

Lemma extends_trans (s1 s2 s3 : scope) : extends s1 s2 -> extends s2 s3 -> extends s1 s3.
Proof.
  intros (M1 & S1 & d1 & C1) (M2 & S2 & d2 & C2). repeat split; [congruence|congruence|].
  exists (d1 ++ d2)%list. rewrite C2, C1, app_assoc. reflexivity.
Qed.

Lemma extends_emit (s : scope) (i : instr) :
  extends s (mkScope (sc_manager s) (sc_circuit s ++ [i])%list (sc_sim s)).
Proof. repeat split. exists [i]. reflexivity. Qed.

Lemma exec_main (c : call) (s : scope) (own : list instr) :
  no_measure c = true -> main_effect s own (exec cos sin fuel true c s own).
Proof.
  intros Hc.
  destruct c; cbn [exec];
  try (unfold g1, controlled, emit;
       repeat match goal with |- context [if ?b then _ else _] => destruct b end;
       cbn; (split; [reflexivity|apply extends_emit]) || apply extends_refl; fail).
  - destruct (valid s q); [|apply extends_refl]. rewrite exec_cb_all.
    pose proof (block_scope cb s [] Hc) as L.
    destruct (exec_all cos sin fuel false cb s []) as [s1 sub1|s1|m1]; cbn in L |- *;
      [destruct L as [-> _]; split; [reflexivity|apply extends_emit]|subst s1; apply extends_refl
      |destruct L].
  - destruct (valid s q); [|apply extends_refl]. rewrite exec_cb_all.
    pose proof (block_scope cb s [] Hc) as L.
    destruct (exec_all cos sin fuel false cb s []) as [s1 sub1|s1|m1]; cbn in L |- *;
      [destruct L as [-> _]; split; [reflexivity|apply extends_emit]|subst s1; apply extends_refl
      |destruct L].
  - discriminate Hc.
Qed.

(** X20: on the scope's recorder, calls that make no [m] call never run the
    simulator: they keep its manager and simulator and only append to the IR
    buffer, also when they throw. *)
Theorem main_records_only (l : list call) (s : scope) (own : list instr) :
  forallb no_measure l = true -> main_effect s own (exec_all cos sin fuel true l s own).
Proof.
  revert s own; induction l as [|c t IH]; intros s own Hl.
  - split; [reflexivity|apply extends_refl].
  - cbn [exec_all forallb] in Hl |- *. apply andb_prop in Hl as [H1 H2].
    pose proof (exec_main c s own H1) as E.
    destruct (exec cos sin fuel true c s own) as [s1 o1|s1|m1]; cbn in E |- *;
      [|exact E|destruct E].
    destruct E as [-> E1].
    pose proof (IH s1 own H2) as E2.
    destruct (exec_all cos sin fuel true t s1 own) as [s2 o2|s2|m2]; cbn in E2 |- *.
    + destruct E2 as [-> E2]. split; [reflexivity|exact (extends_trans _ _ _ E1 E2)].
    + exact (extends_trans _ _ _ E1 E2).
    + destruct E2.
Qed.

End Rec.

Lemma alloc_n_spec (n : nat) (m : QubitManager.manager) :
  Q.alloc_n n m = (seq (QubitManager.next m) n,
                   QubitManager.mkManager (QubitManager.next m + n)
                     (QubitManager.registry m ++ seq (QubitManager.next m) n)).
Proof.
  revert m; induction n as [|k IH]; intros [nx reg]; cbn [Q.alloc_n QubitManager.allocate].
  - cbn. rewrite app_nil_r, Nat.add_0_r. reflexivity.
  - rewrite IH. cbn. rewrite <- app_assoc. cbn. do 2 f_equal. lia.
Qed.

Lemma filter_filter_notin (reg qs : list handle) (q : handle) :
  filter (fun x => negb (existsb (Nat.eqb x) qs)) (filter (fun x => negb (Nat.eqb x q)) reg) =
  filter (fun x => negb (existsb (Nat.eqb x) (q :: qs))) reg.
Proof.
  induction reg as [|x t IH]; [reflexivity|]. cbn.
  destruct (Nat.eqb x q); cbn; [exact IH|].
  destruct (existsb (Nat.eqb x) qs); cbn; [exact IH|]. f_equal. exact IH.
Qed.

Lemma filter_none {A} (f : A -> bool) (l : list A) :
  (forall x, In x l -> f x = false) -> filter f l = [].
Proof.
  induction l as [|x t IH]; intros H; [reflexivity|]. cbn.
  rewrite (H x (or_introl eq_refl)). apply IH. intros y Hy. apply H. right. exact Hy.
Qed.

Lemma release_all_zero (qs : list handle) (st : sim) (m : QubitManager.manager) :
  (forall q, In q qs -> QubitManager.isZeroS q st = Some true) ->
  Q.release_all qs st m =
  (QubitManager.mkManager (QubitManager.next m)
     (filter (fun x => negb (existsb (Nat.eqb x) qs)) (QubitManager.registry m)), None).
Proof.
  revert m; induction qs as [|q t IH]; intros m Hz.
  - cbn. destruct m as [nx reg]. cbn. f_equal. f_equal.
    induction reg as [|x r IHr]; [reflexivity|]. cbn. f_equal. exact IHr.
  - cbn [Q.release_all]. unfold QubitManager.release at 1.
    rewrite (Hz q (or_introl eq_refl)).
    rewrite IH by (intros q' H; apply Hz; right; exact H).
    cbn. rewrite filter_filter_notin. reflexivity.
Qed.

Lemma fresh_isZeroS (qubits : list handle) (noise : option noiseModel) (rng : nat -> float)
    (q : handle) :
  In q qubits -> QubitManager.isZeroS q (Simulator qubits noise None rng) = Some true.
Proof.
  intros Hin. cbv [QubitManager.isZeroS QubitManager.simSimulatorLike].
  unfold isZero, bind, get, ret. rewrite fresh_getProb1 by exact Hin. reflexivity.
Qed.

(** X22: [Q.use(n, () => {})] allocates n fresh qubits, flushes an empty
    circuit and releases them all: the registry ends as it was, and only
    [next] has advanced by n. *)
Theorem use_empty_roundtrip (cos sin : float -> float) (fuel n : nat) (noise : option noiseModel)
    (rng : nat -> float) (m : QubitManager.manager) :
  manager_wf m ->
  exists m', Q.use cos sin fuel n (fun _ => []) noise rng m = Some (m', None) /\
    QubitManager.registry m' = QubitManager.registry m /\
    QubitManager.next m' = (QubitManager.next m + n)%nat.
Proof.
  intros Hwf. unfold Q.use. rewrite alloc_n_spec. cbn [exec_all].
  unfold flush. cbn [sc_circuit].
  replace (Compiler.compile []) with (Some (@nil instr)) by reflexivity.
  cbn [run sc_sim ret sc_manager].
  rewrite release_all_zero by (intros q Hq; apply fresh_isZeroS; exact Hq).
  eexists; split; [reflexivity|]. cbn. split; [|reflexivity].
  rewrite filter_app.
  rewrite (filter_none _ (seq (QubitManager.next m) n)).
  2:{ intros x Hx. rewrite Bool.negb_false_iff. apply existsb_exists. exists x.
      split; [exact Hx|apply Nat.eqb_refl]. }
  rewrite app_nil_r. unfold manager_wf in Hwf.
  induction Hwf as [|x t Hx _ IH]; [reflexivity|]. cbn.
  replace (existsb (Nat.eqb x) (seq (QubitManager.next m) n)) with false.
  - cbn. f_equal. exact IH.
  - symmetry. apply Bool.not_true_iff_false. intros H. apply existsb_exists in H as [y [Hy E]].
    apply Nat.eqb_eq in E; subst y. apply in_seq in Hy. lia.
Qed.

(** X23: when the callback of [Q.use] returns or throws a recorder error
    and the final [flush()] then throws, the [finally] block stops there:
    no qubit is released and all n qubits of the scope stay allocated. *)
Theorem use_flush_leak (cos sin : float -> float) (fuel n : nat) (callback : list handle -> list call)
    (noise : option noiseModel) (rng : nat -> float) (m : QubitManager.manager) (s1 : scope) :
  (exists own, exec_all cos sin fuel true (callback (fst (Q.alloc_n n m)))
     (mkScope (snd (Q.alloc_n n m)) [] (Simulator (fst (Q.alloc_n n m)) noise None rng)) []
   = Ok s1 own) \/
  exec_all cos sin fuel true (callback (fst (Q.alloc_n n m)))
    (mkScope (snd (Q.alloc_n n m)) [] (Simulator (fst (Q.alloc_n n m)) noise None rng)) []
  = Err s1 ->
  flush cos sin fuel None s1 = None ->
  exists m', Q.use cos sin fuel n callback noise rng m = Some (m', Some Q.FlushThrew) /\
    forall q, In q (fst (Q.alloc_n n m)) -> QubitManager.isAllocated m' q = true.
Proof.
  intros He Hf.
  pose proof (exec_all_keeps_manager cos sin fuel true (callback (fst (Q.alloc_n n m)))
    (mkScope (snd (Q.alloc_n n m)) [] (Simulator (fst (Q.alloc_n n m)) noise None rng)) []) as Hm.
  assert (Hm1 : sc_manager s1 = snd (Q.alloc_n n m)).
  { destruct He as [[own He]|He]; rewrite He in Hm; exact Hm. }
  assert (Ha : forall q, In q (fst (Q.alloc_n n m)) -> QubitManager.isAllocated (sc_manager s1) q = true).
  { intros q Hq. rewrite Hm1, alloc_n_spec in *. cbn [fst snd] in *.
    unfold QubitManager.isAllocated. cbn [QubitManager.registry].
    apply existsb_exists. exists q. split; [apply in_or_app; right; exact Hq|apply Nat.eqb_refl]. }
  exists (sc_manager s1). split; [|exact Ha].
  unfold Q.use.
  destruct (Q.alloc_n n m) as [qs m1] eqn:E. cbn [fst snd] in He.
  cbv beta zeta iota.
  destruct He as [[own He]|He]; rewrite He; rewrite Hf; reflexivity.
Qed.

(** X24: the release loop of [Q.use] stops at the first qubit that is not
    |0>: it throws that qubit's ReleaseError and every later qubit keeps its
    allocation status. *)
Theorem release_all_stops (l1 l2 : list handle) (q : handle) (st : sim) (m : QubitManager.manager) :
  (forall h, In h l1 -> QubitManager.isZeroS h st = Some true) ->
  QubitManager.isZeroS q st = Some false ->
  let '(m', e) := Q.release_all (l1 ++ q :: l2) st m in
  e = Some (QubitManager.ReleaseError q) /\
  forall k, ~ In k l1 -> QubitManager.isAllocated m' k = QubitManager.isAllocated m k.
Proof.
  revert m; induction l1 as [|h t IH]; intros m Hz Hq.
  - cbn. unfold QubitManager.release. rewrite Hq. split; reflexivity.
  - cbn [app Q.release_all].
    destruct (QubitManager.release h st m) as [m1 e1] eqn:Er.
    assert (Ee : e1 = None /\ forall k, k <> h ->
                 QubitManager.isAllocated m1 k = QubitManager.isAllocated m k).
    { split.
      - unfold QubitManager.release in Er. rewrite (Hz h (or_introl eq_refl)) in Er.
        injection Er as _ <-. reflexivity.
      - intros k Hk. rewrite <- (release_keeps_others m h k st Hk), Er. reflexivity. }
    destruct Ee as [-> Ek].
    specialize (IH m1 (fun h' H => Hz h' (or_intror H)) Hq).
    destruct (Q.release_all (t ++ q :: l2) st m1) as [m' e].
    destruct IH as [IH1 IH2]. split; [exact IH1|].
    intros k Hk. rewrite IH2 by (intros H; apply Hk; right; exact H).
    apply Ek. intros ->. apply Hk. left. reflexivity.
Qed.

(** X17: [release] never changes whether any other handle is allocated,
    whether it throws or not. *)
Theorem release_others {Sm : Type} `{QubitManager.SimulatorLike Sm}
    (m : QubitManager.manager) (id k : handle) (simulator : Sm) :
  k <> id ->
  QubitManager.isAllocated (fst (QubitManager.release id simulator m)) k =
  QubitManager.isAllocated m k.
Proof. exact (release_keeps_others m id k simulator). Qed.

(** X18: recorder calls never allocate or release qubits: the manager of the
    scope is the same after a callback, also when it throws. *)
Theorem exec_all_manager (cos sin : float -> float) (fuel : nat) (main : bool) (l : list call)
    (s : scope) (own : list instr) :
  omanager (exec_all cos sin fuel main l s own) = sc_manager s.
Proof. apply exec_all_keeps_manager. Qed.

(** X19: inside an [if] or [while] callback, calls that make no [m] call
    leave the scope as it was and only append to the block's own circuit;
    when they throw, the scope is unchanged, and they never flush. *)
Theorem block_records_only (cos sin : float -> float) (fuel : nat) (l : list call) (s : scope)
    (own : list instr) :
  forallb no_measure l = true -> block_effect s own (exec_all cos sin fuel false l s own).
Proof. apply block_scope. Qed.

Lemma prune_provenance_witness :
  In (op1 "Z" 0%nat) (Optimizer.prune [op1 "S" 0%nat; op1 "S" 0%nat]) /\
  exists i, In i [op1 "S" 0%nat; op1 "S" 0%nat] /\ qubit (op1 "Z" 0%nat) = qubit i /\
    condition (op1 "Z" 0%nat) = condition i /\ body (op1 "Z" 0%nat) = body i /\
    (gate (op1 "Z" 0%nat) = gate i \/ (gate i = "S" /\ gate (op1 "Z" 0%nat) = "Z") \/
     (gate i = "T" /\ (gate (op1 "Z" 0%nat) = "S" \/ gate (op1 "Z" 0%nat) = "Z"))).
Proof.
  assert (H : In (op1 "Z" 0%nat) (Optimizer.prune [op1 "S" 0%nat; op1 "S" 0%nat]))
    by (vm_compute; left; reflexivity).
  split; [exact H | exact (prune_provenance _ _ H)].
Defined.

Lemma prune_multi_qubit_witness :
  Forall (fun op => exists hs, qubit op = QMany hs /\ List.length hs <> 1%nat)
    [opn "CNOT" [0%nat; 1%nat]; opn "CNOT" [0%nat; 1%nat]] /\
  Optimizer.prune [opn "CNOT" [0%nat; 1%nat]; opn "CNOT" [0%nat; 1%nat]] =
  filter (fun op => negb (Optimizer.isIdentity op)) [opn "CNOT" [0%nat; 1%nat]; opn "CNOT" [0%nat; 1%nat]].
Proof.
  assert (H : Forall (fun op => exists hs, qubit op = QMany hs /\ List.length hs <> 1%nat)
    [opn "CNOT" [0%nat; 1%nat]; opn "CNOT" [0%nat; 1%nat]]).
  { repeat constructor; eexists; (split; [reflexivity|discriminate]). }
  split; [exact H | exact (prune_multi_qubit _ H)].
Defined.

Lemma prune_self_inverse_pair_witness :
  In "H" ["H"; "X"; "Y"; "Z"] /\
  Optimizer.prune [mkInstr "H" (QOne 0%nat) [] None None; mkInstr "H" (QOne 0%nat) [] None None] = [].
Proof.
  assert (H : In "H" ["H"; "X"; "Y"; "Z"]) by (left; reflexivity).
  split; [exact H | exact (prune_self_inverse_pair _ _ _ _ _ _ _ _ H)].
Defined.

Lemma prune_rotation_pair_witness :
  In "RZ" ["RX"; "RY"; "RZ"] /\
  Optimizer.isIdentity (mkInstr "RZ" (QOne 0%nat) [1%float] None None) = false /\
  Optimizer.isIdentity (mkInstr "RZ" (QOne 0%nat) [2%float] None None) = false /\
  Optimizer.prune [mkInstr "RZ" (QOne 0%nat) [1%float] None None;
                   mkInstr "RZ" (QOne 0%nat) [2%float] None None] =
  (let r := mkInstr "RZ" (QOne 0%nat) [JS.fmod (1 + 2)%float Optimizer.TWO_PI] None None in
   if Optimizer.isIdentity r then [] else [r]).
Proof.
  assert (Hg : In "RZ" ["RX"; "RY"; "RZ"]) by (right; right; left; reflexivity).
  assert (H1 : Optimizer.isIdentity (mkInstr "RZ" (QOne 0%nat) [1%float] None None) = false)
    by (vm_compute; reflexivity).
  assert (H2 : Optimizer.isIdentity (mkInstr "RZ" (QOne 0%nat) [2%float] None None) = false)
    by (vm_compute; reflexivity).
  split; [exact Hg|]. split; [exact H1|]. split; [exact H2|].
  exact (prune_rotation_pair _ _ _ _ _ _ _ _ Hg H1 H2).
Defined.

Lemma transpile_native_witness :
  match Transpiler.transpile [op1 "H" 0%nat; opn "SWAP" [0%nat; 1%nat]; opn "CZ" [1%nat; 0%nat]] with
  | Some l' => Transpiler.transpile [op1 "H" 0%nat; opn "SWAP" [0%nat; 1%nat]; opn "CZ" [1%nat; 0%nat]]
                 = Some l' /\ Forall (fun o => ~ In (gate o) nonnative) l'
  | None => False
  end.
Proof.
  destruct (Transpiler.transpile [op1 "H" 0%nat; opn "SWAP" [0%nat; 1%nat]; opn "CZ" [1%nat; 0%nat]])
    as [l'|] eqn:E.
  - split; [reflexivity | exact (transpile_native _ _ E)].
  - vm_compute in E. discriminate E.
Defined.

Lemma run_measure_records_witness :
  match run_op (fun x => x) (fun x => x) 0%nat (mkInstr "MEASURE" (QOne 0%nat) [] None None)
          (Simulator [0%nat; 1%nat] None None (fun _ => 0.5%float)) with
  | Some (tt, st') =>
      (getResult st' 0%nat = Some 0 \/ getResult st' 0%nat = Some 1) /\
      (forall k, k <> 0%nat -> getResult st' k =
                 getResult (Simulator [0%nat; 1%nat] None None (fun _ => 0.5%float)) k)
  | None => False
  end.
Proof.
  destruct (run_op (fun x => x) (fun x => x) 0%nat (mkInstr "MEASURE" (QOne 0%nat) [] None None)
          (Simulator [0%nat; 1%nat] None None (fun _ => 0.5%float))) as [[[] st']|] eqn:E.
  - exact (run_measure_records _ _ _ _ _ _ _ _ _ E).
  - vm_compute in E. discriminate E.
Defined.

Lemma X_measure_fresh_witness :
  random_range (fun _ => 0.5%float) /\
  bitOf (Simulator [0%nat; 1%nat] None None (fun _ => 0.5%float)) (Some 1%nat) = Some 2 /\
  option_map (fun r => getResult (snd r) 1%nat)
    (run (fun x => x) (fun x => x) 0%nat [op1 "X" 1%nat; op1 "MEASURE" 1%nat]
       (Simulator [0%nat; 1%nat] None None (fun _ => 0.5%float))) = Some (Some 1).
Proof.
  assert (Hr : random_range (fun _ => 0.5%float)) by (intros k; split; reflexivity).
  assert (Hb : bitOf (Simulator [0%nat; 1%nat] None None (fun _ => 0.5%float)) (Some 1%nat) = Some 2)
    by reflexivity.
  split; [exact Hr|]. split; [exact Hb|].
  exact (X_measure_fresh _ _ _ _ _ _ _ Hr Hb).
Defined.

Lemma allocate_fresh_witness :
  manager_wf (QubitManager.mkManager 2 [0%nat; 1%nat]) /\
  (let '(id, m') := QubitManager.allocate (QubitManager.mkManager 2 [0%nat; 1%nat]) in
   QubitManager.isAllocated (QubitManager.mkManager 2 [0%nat; 1%nat]) id = false /\
   QubitManager.isAllocated m' id = true /\
   (forall k, k <> id -> QubitManager.isAllocated m' k =
                         QubitManager.isAllocated (QubitManager.mkManager 2 [0%nat; 1%nat]) k) /\
   manager_wf m').
Proof.
  assert (H : manager_wf (QubitManager.mkManager 2 [0%nat; 1%nat])).
  { unfold manager_wf. cbn. repeat constructor; lia. }
  split; [exact H | exact (allocate_fresh _ H)].
Defined.

Lemma release_others_witness :
  1%nat <> 0%nat /\
  QubitManager.isAllocated (fst (QubitManager.release 0%nat
      (Simulator [0%nat; 1%nat] None None (fun _ => 0.5%float))
      (QubitManager.mkManager 2 [0%nat; 1%nat]))) 1%nat =
  QubitManager.isAllocated (QubitManager.mkManager 2 [0%nat; 1%nat]) 1%nat.
Proof.
  assert (H : 1%nat <> 0%nat) by discriminate.
  split; [exact H | exact (release_others _ _ _ _ H)].
Defined.

Lemma block_records_only_witness :
  forallb no_measure [Ch 0%nat; Cif 0%nat 1 [Cx 0%nat; Crz 0%nat 1%float]] = true /\
  block_effect (scope0 []) []
    (exec_all (fun x => x) (fun x => x) 0%nat false
       [Ch 0%nat; Cif 0%nat 1 [Cx 0%nat; Crz 0%nat 1%float]] (scope0 []) []).
Proof.
  assert (H : forallb no_measure [Ch 0%nat; Cif 0%nat 1 [Cx 0%nat; Crz 0%nat 1%float]] = true)
    by reflexivity.
  split; [exact H | exact (block_records_only _ _ _ _ _ _ H)].
Defined.

Lemma main_records_only_witness :
  forallb no_measure [Ch 0%nat; Cwhile 0%nat 1 [Cx 0%nat]] = true /\
  main_effect (scope0 []) []
    (exec_all (fun x => x) (fun x => x) 0%nat true [Ch 0%nat; Cwhile 0%nat 1 [Cx 0%nat]] (scope0 []) []).
Proof.
  assert (H : forallb no_measure [Ch 0%nat; Cwhile 0%nat 1 [Cx 0%nat]] = true) by reflexivity.
  split; [exact H | exact (main_records_only _ _ _ _ _ _ H)].
Defined.

Lemma use_empty_roundtrip_witness :
  manager_wf (QubitManager.mkManager 3 [0%nat; 2%nat]) /\
  exists m', Q.use (fun x => x) (fun x => x) 0%nat 2 (fun _ => []) None (fun _ => 0.5%float)
               (QubitManager.mkManager 3 [0%nat; 2%nat]) = Some (m', None) /\
    QubitManager.registry m' = [0%nat; 2%nat] /\ QubitManager.next m' = 5%nat.
Proof.
  assert (H : manager_wf (QubitManager.mkManager 3 [0%nat; 2%nat])).
  { unfold manager_wf. cbn. repeat constructor; lia. }
  split; [exact H | exact (use_empty_roundtrip _ _ _ 2 None _ _ H)].
Defined.

Lemma use_flush_leak_witness :
  match exec_all (fun x => x) (fun x => x) 0%nat true [Cx 0%nat; Cy 7%nat]
          (mkScope (snd (Q.alloc_n 1 (QubitManager.mkManager 1 [0%nat]))) []
             (Simulator (fst (Q.alloc_n 1 (QubitManager.mkManager 1 [0%nat]))) None None
                (fun _ => 0.5%float))) [] with
  | Err s1 =>
      flush (fun x => x) (fun x => x) 0%nat None s1 = None /\
      exists m', Q.use (fun x => x) (fun x => x) 0%nat 1 (fun _ => [Cx 0%nat; Cy 7%nat]) None
                   (fun _ => 0.5%float) (QubitManager.mkManager 1 [0%nat])
                 = Some (m', Some Q.FlushThrew) /\
        forall q, In q (fst (Q.alloc_n 1 (QubitManager.mkManager 1 [0%nat]))) ->
                  QubitManager.isAllocated m' q = true
  | _ => False
  end.
Proof.
  assert (Hf : match exec_all (fun x => x) (fun x => x) 0%nat true [Cx 0%nat; Cy 7%nat]
          (mkScope (snd (Q.alloc_n 1 (QubitManager.mkManager 1 [0%nat]))) []
             (Simulator (fst (Q.alloc_n 1 (QubitManager.mkManager 1 [0%nat]))) None None
                (fun _ => 0.5%float))) [] with
               | Err s1 => flush (fun x => x) (fun x => x) 0%nat None s1 = None
               | _ => False
               end) by (vm_compute; reflexivity).
  revert Hf.
  destruct (exec_all (fun x => x) (fun x => x) 0%nat true [Cx 0%nat; Cy 7%nat]
          (mkScope (snd (Q.alloc_n 1 (QubitManager.mkManager 1 [0%nat]))) []
             (Simulator (fst (Q.alloc_n 1 (QubitManager.mkManager 1 [0%nat]))) None None
                (fun _ => 0.5%float))) []) as [s1 own|s1|m1] eqn:E; intros Hf;
    [destruct Hf| |destruct Hf].
  split; [exact Hf|].
  exact (use_flush_leak _ _ _ 1 (fun _ => [Cx 0%nat; Cy 7%nat]) None _ _ _ (or_intror E) Hf).
Defined.

Lemma release_all_stops_witness :
  let st := match run (fun x => x) (fun x => x) 0%nat [op1 "X" 1%nat]
                    (Simulator [0%nat; 1%nat; 2%nat] None None (fun _ => 0.5%float)) with
            | Some (_, st) => st
            | None => Simulator [0%nat; 1%nat; 2%nat] None None (fun _ => 0.5%float)
            end in
  (forall h, In h [0%nat] -> QubitManager.isZeroS h st = Some true) /\
  QubitManager.isZeroS 1%nat st = Some false /\
  (let '(m', e) := Q.release_all ([0%nat] ++ 1%nat :: [2%nat]) st
                     (QubitManager.mkManager 3 [0%nat; 1%nat; 2%nat]) in
   e = Some (QubitManager.ReleaseError 1%nat) /\
   forall k, ~ In k [0%nat] -> QubitManager.isAllocated m' k =
             QubitManager.isAllocated (QubitManager.mkManager 3 [0%nat; 1%nat; 2%nat]) k).
Proof.
  intros st.
  assert (H1 : forall h, In h [0%nat] -> QubitManager.isZeroS h st = Some true).
  { intros h [<-|[]]. vm_compute. reflexivity. }
  assert (H2 : QubitManager.isZeroS 1%nat st = Some false) by (vm_compute; reflexivity).
  split; [exact H1|]. split; [exact H2|].
  exact (release_all_stops [0%nat] [2%nat] 1%nat st _ H1 H2).
Defined.
